(** * cdf: directory scanning, batching and the two-phase relay

    A shallow embedding of the scanning engine of cdf (scanner.go, main.go,
    matcher.go).  Go [int] values are [Z], Go strings are [string], slices
    are lists, and a channel that is written by one goroutine and then
    closed is the list of values delivered on it, in order. *)

From Stdlib Require Import ZArith List String Ascii Bool Lia Arith.
Import ListNotations.

Local Open Scope string_scope.
Local Open Scope nat_scope.

Set Implicit Arguments.

(** ** Lexical path processing (path/filepath on Unix)

    [Clean], [Join] and [Rel] follow the index loops of the Go library, with
    the byte at an index read by [byteAt] and a half-open slice [s[a:b]]
    by [slice]. *)

Module Filepath.

Definition Separator : ascii := "/"%char.

Definition isSep (c : ascii) : bool := Ascii.eqb c Separator.

Definition byteAt (s : string) (i : nat) : ascii :=
  match String.get i s with
  | Some c => c
  | None => Ascii.zero
  end.

Definition slice (s : string) (a b : nat) : string := substring a (b - a) s.

Definition isDot (c : ascii) : bool := Ascii.eqb c "."%char.

(** [for ; r < n && !os.IsPathSeparator(path[r]); r++ {}] *)
Fixpoint skipElem (fuel : nat) (path : string) (r : nat) : nat :=
  match fuel with
  | O => r
  | S fuel' =>
      if (r <? String.length path) && negb (isSep (byteAt path r))
      then skipElem fuel' path (S r)
      else r
  end.

(** [for out.w > dotdot && !os.IsPathSeparator(out.index(out.w)) { out.w-- }],
    entered after the first [out.w--]. *)
Fixpoint backtrack (out : string) (dotdot w : nat) : nat :=
  match w with
  | O => O
  | S w' =>
      if (dotdot <? w) && negb (isSep (byteAt out w))
      then backtrack out dotdot w'
      else w
  end.

(** The main loop of [Clean]; [out] is the written part of the lazy
    buffer, so that [out.w] is its length. *)
Fixpoint cleanLoop (fuel : nat) (path : string) (rooted : bool)
         (r dotdot : nat) (out : string) : string :=
  match fuel with
  | O => out
  | S fuel' =>
      let n := String.length path in
      if r <? n then
        if isSep (byteAt path r) then
          cleanLoop fuel' path rooted (r + 1) dotdot out
        else if isDot (byteAt path r)
                && ((r + 1 =? n) || isSep (byteAt path (r + 1))) then
          cleanLoop fuel' path rooted (r + 1) dotdot out
        else if isDot (byteAt path r) && isDot (byteAt path (r + 1))
                && ((r + 2 =? n) || isSep (byteAt path (r + 2))) then
          if dotdot <? String.length out then
            let w := backtrack out dotdot (String.length out - 1) in
            cleanLoop fuel' path rooted (r + 2) dotdot (slice out 0 w)
          else if negb rooted then
            let out1 := if 0 <? String.length out then out ++ "/" else out in
            let out2 := out1 ++ ".." in
            cleanLoop fuel' path rooted (r + 2) (String.length out2) out2
          else
            cleanLoop fuel' path rooted (r + 2) dotdot out
        else
          let out1 :=
            if (rooted && negb (String.length out =? 1))
               || (negb rooted && negb (String.length out =? 0))
            then out ++ "/" else out in
          let r' := skipElem n path r in
          cleanLoop fuel' path rooted r' dotdot (out1 ++ slice path r r')
      else out
  end.

Definition Clean (path : string) : string :=
  if String.eqb path "" then "."
  else
    let rooted := isSep (byteAt path 0) in
    let start := if rooted then 1 else 0 in
    let out := cleanLoop (S (String.length path)) path rooted start start
                         (if rooted then "/" else "") in
    if String.length out =? 0 then "." else out.

(** [Join(dir, name)], the two-element case used by the walker. *)
Definition Join (dir name : string) : string :=
  if negb (String.eqb dir "") then Clean (dir ++ "/" ++ name)
  else if negb (String.eqb name "") then Clean name
  else "".

(** [strings.Count(s, string(filepath.Separator))]: the separator is one
    byte, so the count is the number of separator bytes. *)
Fixpoint countSep (s : string) : Z :=
  match s with
  | EmptyString => 0
  | String c s' => ((if isSep c then 1 else 0) + countSep s')%Z
  end.

(** The loop of [Rel] that positions [base[b0:bi]] and [targ[t0:ti]] at
    the first differing elements. *)
Fixpoint relLoop (fuel : nat) (base targ : string) (b0 bi t0 ti : nat)
  : nat * nat * nat * nat :=
  match fuel with
  | O => (b0, bi, t0, ti)
  | S fuel' =>
      let bl := String.length base in
      let tl := String.length targ in
      if (bi <? bl) && (ti <? tl) then
        let bi1 := skipElem bl base bi in
        let ti1 := skipElem tl targ ti in
        if negb (String.eqb (slice targ t0 ti1) (slice base b0 bi1)) then
          (b0, bi1, t0, ti1)
        else
          let bi2 := if bi1 <? bl then S bi1 else bi1 in
          let ti2 := if ti1 <? tl then S ti1 else ti1 in
          relLoop fuel' base targ bi2 bi2 ti2 ti2
      else (b0, bi, t0, ti)
  end.

(** [seps] copies of ["/.."] appended to [".."]. *)
Fixpoint dotdots (seps : nat) : string :=
  match seps with
  | O => ""
  | S k => "/.." ++ dotdots k
  end.

(** [Rel(basepath, targpath)]; [None] is the error result. *)
Definition Rel (basepath targpath : string) : option string :=
  let base := Clean basepath in
  let targ := Clean targpath in
  if String.eqb targ base then Some "."
  else
    let base := if String.eqb base "." then "" else base in
    let baseSlashed := (0 <? String.length base) && isSep (byteAt base 0) in
    let targSlashed := (0 <? String.length targ) && isSep (byteAt targ 0) in
    if negb (Bool.eqb baseSlashed targSlashed) then None
    else
      let bl := String.length base in
      let tl := String.length targ in
      let '(b0, bi, t0, ti) := relLoop (S (bl + tl)) base targ 0 0 0 0 in
      if String.eqb (slice base b0 bi) ".." then None
      else if negb (b0 =? bl) then
        let seps := Z.to_nat (countSep (slice base b0 bl)) in
        let up := ".." ++ dotdots seps in
        if negb (t0 =? tl) then Some (up ++ "/" ++ slice targ t0 tl)
        else Some up
      else Some (slice targ t0 tl).

End Filepath.

(** ** Errors, directory entries and the file system seen by a walk *)

(** The error values that reach this code: the two sentinels of
    [filepath.WalkDir], the two errors of a context that is done
    ([context.Canceled] and [context.DeadlineExceeded]), the file-system
    failures of [os.Lstat] and [os.ReadDir], and the run-time panic of a nil
    dereference. *)
Inductive error : Type :=
| SkipDir
| SkipAll
| Canceled
| DeadlineExceeded
| ErrNotExist
| ErrPermission
| NilDeref.

Definition error_eqb (a b : error) : bool :=
  match a, b with
  | SkipDir, SkipDir | SkipAll, SkipAll | Canceled, Canceled
  | DeadlineExceeded, DeadlineExceeded
  | ErrNotExist, ErrNotExist | ErrPermission, ErrPermission
  | NilDeref, NilDeref => true
  | _, _ => false
  end.

(** [fs.DirEntry], as far as the callbacks read it. *)
Record DirEntry : Type := mkDirEntry { Name : string; IsDir : bool }.

(** What [os.ReadDir] and the entry types report below a path.  A
    directory carries the (possibly partial) list of entries [os.ReadDir]
    returned for it, in the order returned, and the error it returned with
    them, if any.  Anything that is not a directory is a [File]. *)
#[local] Unset Elimination Schemes.
Inductive node : Type :=
| File (name : string)
| Dir (name : string) (readErr : option error) (entries : list node).
#[local] Set Elimination Schemes.

Section node_induction.
Variable P : node -> Prop.
Hypothesis P_File : forall name, P (File name).
Hypothesis P_Dir :
  forall name readErr entries, Forall P entries -> P (Dir name readErr entries).

Fixpoint node_ind (n : node) : P n :=
  match n with
  | File name => P_File name
  | Dir name readErr entries =>
      P_Dir name readErr
        ((fix all (l : list node) : Forall P l :=
            match l with
            | [] => Forall_nil P
            | x :: l' => Forall_cons x (node_ind x) (all l')
            end) entries)
  end.
End node_induction.

Definition entryOf (n : node) : DirEntry :=
  match n with
  | File name => mkDirEntry name false
  | Dir name _ _ => mkDirEntry name true
  end.

(** The outcome of [os.Lstat] on a walk's root. *)
Inductive lstatResult : Type :=
| LstatErr (e : error)
| LstatOk (n : node).

(** A file system answers [os.Lstat] for the path a walk starts from. *)
Definition filesystem : Type := string -> lstatResult.

(** ** filepath.WalkDir

    The callback threads a state [S] and returns Go's [error] result
    ([None] is [nil]). *)

Section Walk.
Variable S : Type.

Definition WalkDirFunc : Type :=
  string -> option DirEntry -> option error -> S -> option error * S.

Variable fn : WalkDirFunc.

(** [if err == SkipDir && d.IsDir() { err = nil }; return err] *)
Definition skipped (isDir : bool) (e : error) : option error :=
  if error_eqb e SkipDir && isDir then None else Some e.

Fixpoint walkDir (path : string) (n : node) (s : S) : option error * S :=
  let d := entryOf n in
  let '(err, s1) := fn path (Some d) None s in
  match err with
  | Some e => (skipped (IsDir d) e, s1)
  | None =>
      match n with
      | File _ => (None, s1)
      | Dir _ readErr entries =>
          let '(err2, s2) :=
            match readErr with
            | None => (None, s1)
            | Some re => fn path (Some d) (Some re) s1
            end in
          match err2 with
          | Some e => (skipped (IsDir d) e, s2)
          | None =>
              (fix loop (dirs : list node) (s : S) : option error * S :=
                 match dirs with
                 | [] => (None, s)
                 | d1 :: rest =>
                     let path1 := Filepath.Join path (Name (entryOf d1)) in
                     match walkDir path1 d1 s with
                     | (None, s') => loop rest s'
                     | (Some e, s') =>
                         if error_eqb e SkipDir then (None, s')
                         else (Some e, s')
                     end
                 end) entries s2
          end
      end
  end.

(** The loop over the entries of a directory, named for the proofs. *)
Fixpoint walkEntries (path : string) (dirs : list node) (s : S)
  : option error * S :=
  match dirs with
  | [] => (None, s)
  | d1 :: rest =>
      let path1 := Filepath.Join path (Name (entryOf d1)) in
      match walkDir path1 d1 s with
      | (None, s') => walkEntries path rest s'
      | (Some e, s') =>
          if error_eqb e SkipDir then (None, s') else (Some e, s')
      end
  end.

Definition WalkDir (fs : filesystem) (root : string) (s : S)
  : option error * S :=
  let '(err, s') :=
    match fs root with
    | LstatErr e => fn root None (Some e) s
    | LstatOk n => walkDir root n s
    end in
  match err with
  | Some e =>
      if error_eqb e SkipDir || error_eqb e SkipAll then (None, s')
      else (Some e, s')
  | None => (None, s')
  end.

End Walk.

(** ** scanner.go *)

Definition ignorePatterns : list string :=
  [ ".git"; "node_modules"; "target"; ".cache"; "vendor";
    "__pycache__"; ".pytest_cache"; "dist"; "build";
    ".terraform"; ".vscode"; ".idea" ].

Fixpoint shouldIgnoreIn (patterns : list string) (name : string) : bool :=
  match patterns with
  | [] => false
  | pattern :: rest =>
      if String.eqb name pattern then true else shouldIgnoreIn rest name
  end.

Definition shouldIgnore (name : string) : bool :=
  shouldIgnoreIn ignorePatterns name.

Definition isWithinDepth (path root : string) (maxDepth : Z) : bool :=
  match Filepath.Rel root path with
  | None => false
  | Some relPath =>
      let depth := Filepath.countSep relPath in
      (depth <=? maxDepth)%Z
  end.

(** The callback of [scanDirectories]; its state is the [directories]
    slice. *)
Definition scanVisit (root : string) (maxDepth : Z) (useIgnorePatterns : bool)
  : WalkDirFunc (list string) :=
  fun path d err directories =>
    match err with
    | Some _ => (None, directories)
    | None =>
        match d with
        | None => (Some NilDeref, directories)
        | Some d =>
            if negb (IsDir d) then (None, directories)
            else if String.eqb path root then (None, directories)
            else if negb (isWithinDepth path root maxDepth) then
              (Some SkipDir, directories)
            else if useIgnorePatterns && shouldIgnore (Name d) then
              (Some SkipDir, directories)
            else (None, (directories ++ [path])%list)
        end
    end.

(** [scanDirectories] returns [(directories, err)]. *)
Definition scanDirectories (fs : filesystem) (root : string) (maxDepth : Z)
           (useIgnorePatterns : bool) : list string * option error :=
  let '(err, directories) :=
    WalkDir (scanVisit root maxDepth useIgnorePatterns) fs root [] in
  (directories, err).

(** ** Contexts and channels

    A goroutine sees its [context.Context] only at the points where it
    reads [ctx.Done()] or [ctx.Err()].  These reads are numbered by a
    clock; [cancelAt] is the first read at which the context is done (never,
    for [None]), so a context that is done stays done.  In
    [select { case ch <- b: ...; case <-ctx.Done(): ... }] the send is taken
    while the context is not done (the receiver is assumed to keep
    receiving); once it is done either case may be taken, and [sendWins]
    says which.  The contexts modelled are those made by
    [context.WithCancel], as [main] makes its context: once done, their
    [Err()] is [Canceled]. *)
Record Context : Type := mkContext {
  cancelAt : option nat;
  sendWins : nat -> bool
}.

Definition ctxDone (ctx : Context) (t : nat) : bool :=
  match cancelAt ctx with
  | Some k => k <=? t
  | None => false
  end.

(** [context.Background()] is never cancelled. *)
Definition Background : Context := mkContext None (fun _ => true).

Record DirBatch : Type := mkDirBatch {
  Directories : list string;
  Done : bool;
  Err : option error
}.

Record ScanConfig : Type := mkScanConfig {
  Root : string;
  MaxDepth : Z;
  UseIgnorePatterns : bool;
  InitialBatchSize : Z;
  MaxBatchSize : Z
}.

(** Go's [int] is 64 bits wide and wraps around. *)
Definition wrap64 (z : Z) : Z :=
  ((z + 2 ^ 63) mod 2 ^ 64 - 2 ^ 63)%Z.

(** [func min(a, b int) int] *)
Definition min (a b : Z) : Z := if (a <? b)%Z then a else b.

(** The variables the emitter's goroutine closes over, the clock of its
    context reads, and the batches delivered on [ch] so far. *)
Record emitState : Type := mkEmitState {
  batch : list string;
  currentBatchSize : Z;
  dirCount : Z;
  clock : nat;
  ch : list DirBatch
}.

Definition tick (st : emitState) : emitState :=
  mkEmitState (batch st) (currentBatchSize st) (dirCount st)
              (Datatypes.S (clock st)) (ch st).

(** [select { case <-ctx.Done(): ...; default: }] and [ctx.Err() != nil]. *)
Definition pollDone (ctx : Context) (st : emitState) : bool * emitState :=
  (ctxDone ctx (clock st), tick st).

(** [select { case ch <- b: ...; case <-ctx.Done(): ... }]; the boolean
    tells whether [b] was delivered. *)
Definition trySend (ctx : Context) (b : DirBatch) (st : emitState)
  : bool * emitState :=
  if ctxDone ctx (clock st) && negb (sendWins ctx (clock st))
  then (false, tick st)
  else (true, mkEmitState (batch st) (currentBatchSize st) (dirCount st)
                          (Datatypes.S (clock st)) (ch st ++ [b])%list).

Definition len (l : list string) : Z := Z.of_nat (List.length l).

(** The part of both emitter callbacks from [batch = append(batch, path)]
    on. *)
Definition appendAndFlush (ctx : Context) (config : ScanConfig)
           (path : string) (st : emitState) : option error * emitState :=
  let st :=
    mkEmitState (batch st ++ [path])%list (currentBatchSize st)
                (wrap64 (dirCount st + 1)) (clock st) (ch st) in
  if (currentBatchSize st <=? len (batch st))%Z then
    let sendBatch := batch st in
    let '(sent, st) := trySend ctx (mkDirBatch sendBatch false None) st in
    if negb sent then (Some Canceled, st)
    else
      let size :=
        if (500 <? dirCount st)%Z
           && (currentBatchSize st <? MaxBatchSize config)%Z
        then min (wrap64 (currentBatchSize st * 2)) (MaxBatchSize config)
        else currentBatchSize st in
      (None, mkEmitState [] size (dirCount st) (clock st) (ch st))
  else (None, st).

(** The callback of [scanWithConfigCtx]. *)
Definition emitVisit (ctx : Context) (config : ScanConfig)
  : WalkDirFunc emitState :=
  fun path d err st =>
    let '(done, st) := pollDone ctx st in
    if done then (Some Canceled, st)
    else
      match err with
      | Some _ => (None, st)
      | None =>
          match d with
          | None => (Some NilDeref, st)
          | Some d =>
              if negb (IsDir d) then (None, st)
              else if String.eqb path (Root config) then (None, st)
              else if negb (isWithinDepth path (Root config) (MaxDepth config))
              then (Some SkipDir, st)
              else if UseIgnorePatterns config && shouldIgnore (Name d)
              then (Some SkipDir, st)
              else appendAndFlush ctx config path st
          end
      end.

(** [path == excludePath || strings.HasPrefix(path, excludePath+"/")],
    guarded by [excludePath != ""]. *)
Definition excluded (excludePath path : string) : bool :=
  negb (String.eqb excludePath "")
  && (String.eqb path excludePath
      || String.prefix (excludePath ++ "/")%string path).

(** The callback of [scanWithConfigCtxExcluding]. *)
Definition emitVisitExcluding (ctx : Context) (config : ScanConfig)
           (excludePath : string) : WalkDirFunc emitState :=
  fun path d err st =>
    let '(done, st) := pollDone ctx st in
    if done then (Some Canceled, st)
    else
      match err with
      | Some _ => (None, st)
      | None =>
          match d with
          | None => (Some NilDeref, st)
          | Some d =>
              if negb (IsDir d) then (None, st)
              else if String.eqb path (Root config) then (None, st)
              else if excluded excludePath path then (Some SkipDir, st)
              else if negb (isWithinDepth path (Root config) (MaxDepth config))
              then (Some SkipDir, st)
              else if UseIgnorePatterns config && shouldIgnore (Name d)
              then (Some SkipDir, st)
              else appendAndFlush ctx config path st
          end
      end.

(** The closure [walkDirContext] hands to [filepath.WalkDir]: the context
    is read once more before each call of the callback. *)
Definition contextVisit (ctx : Context) (fn : WalkDirFunc emitState)
  : WalkDirFunc emitState :=
  fun path d err st =>
    let '(done, st) := pollDone ctx st in
    if done then (Some Canceled, st) else fn path d err st.

Definition walkDirContext (ctx : Context) (fs : filesystem) (root : string)
           (fn : WalkDirFunc emitState) (st : emitState)
  : option error * emitState :=
  WalkDir (contextVisit ctx fn) fs root st.

(** What the goroutine does once the walk has returned [err]: the context
    is read, and the terminal batch is offered to the channel. *)
Definition finish (ctx : Context) (err : option error) (st : emitState)
  : emitState :=
  let '(done, st) := pollDone ctx st in
  let err := if done then Some Canceled else err in
  if (0 <? len (batch st))%Z
     || match err with Some _ => true | None => false end
  then snd (trySend ctx (mkDirBatch (batch st) true err) st)
  else snd (trySend ctx (mkDirBatch [] true err) st).

(** The goroutine of an emitter, from [make] to [close(ch)].  [make]
    panics on a negative capacity: [None].  It also panics on a capacity
    beyond the limit of the allocator, which depends on the platform and is
    left out here. *)
Definition emitter (ctx : Context) (fs : filesystem) (config : ScanConfig)
           (fn : WalkDirFunc emitState) : option emitState :=
  if (InitialBatchSize config <? 0)%Z then None
  else
    let st := mkEmitState [] (InitialBatchSize config) 0 0 [] in
    let '(err, st) := walkDirContext ctx fs (Root config) fn st in
    Some (finish ctx err st).

(** The streams of the two emitters: the batches received from the
    returned channel until it is closed. *)
Definition scanWithConfigCtx (ctx : Context) (fs : filesystem)
           (config : ScanConfig) : option (list DirBatch) :=
  option_map ch (emitter ctx fs config (emitVisit ctx config)).

Definition scanWithConfigCtxExcluding (ctx : Context) (fs : filesystem)
           (config : ScanConfig) (excludePath : string)
  : option (list DirBatch) :=
  option_map ch
    (emitter ctx fs config (emitVisitExcluding ctx config excludePath)).

Definition asyncConfig (root : string) (maxDepth : Z)
           (useIgnorePatterns : bool) (batchSize : Z) : ScanConfig :=
  mkScanConfig root maxDepth useIgnorePatterns batchSize 200.

Definition scanDirectoriesAsyncCtx (ctx : Context) (fs : filesystem)
           (root : string) (maxDepth : Z) (useIgnorePatterns : bool)
           (batchSize : Z) : option (list DirBatch) :=
  scanWithConfigCtx ctx fs
    (asyncConfig root maxDepth useIgnorePatterns batchSize).

Definition scanDirectoriesAsyncCtxExcluding (ctx : Context) (fs : filesystem)
           (root : string) (maxDepth : Z) (useIgnorePatterns : bool)
           (batchSize : Z) (excludePath : string) : option (list DirBatch) :=
  scanWithConfigCtxExcluding ctx fs
    (asyncConfig root maxDepth useIgnorePatterns batchSize) excludePath.

Definition scanDirectoriesAsync (fs : filesystem) (root : string)
           (maxDepth : Z) (useIgnorePatterns : bool) (batchSize : Z)
  : option (list DirBatch) :=
  scanDirectoriesAsyncCtx Background fs root maxDepth useIgnorePatterns
                          batchSize.

Definition scanWithConfig (fs : filesystem) (config : ScanConfig)
  : option (list DirBatch) :=
  scanWithConfigCtx Background fs config.

(** ** main.go: the two-phase orchestrator

    The orchestrator's goroutine and the emitters it starts hold the same
    context but read it at their own points, so each has its own view of
    it. *)
Record Schedule : Type := mkSchedule {
  emit1 : Context;   (* the phase-1 (or single-phase) emitter *)
  emit2 : Context;   (* the phase-2 emitter *)
  relay : Context    (* the orchestrator's own goroutine *)
}.

(** [select { case ch <- b: ; case <-ctx.Done(): return }] in the
    orchestrator, at its [t]-th read of the context. *)
Definition delivered (ctx : Context) (t : nat) : bool :=
  negb (ctxDone ctx t && negb (sendWins ctx t)).

(** [for batch := range in { select { case ch <- batch: case <-ctx.Done(): return } }] *)
Fixpoint relayPlain (ctx : Context) (t : nat) (ins : list DirBatch)
  : list DirBatch :=
  match ins with
  | [] => []
  | b :: rest =>
      if delivered ctx t then b :: relayPlain ctx (Datatypes.S t) rest
      else []
  end.

(** The batch the phase-1 loop sends for an inner [batch]. *)
Definition phase1Batch (b : DirBatch) : DirBatch :=
  mkDirBatch (Directories b) false (Err b).

(** The phase-1 loop.  The second component is [None] when the loop
    returned from the goroutine, and the clock at which it ran to the end of
    the inner stream otherwise. *)
Fixpoint relayPhase1 (ctx : Context) (t : nat) (ins : list DirBatch)
  : list DirBatch * option nat :=
  match ins with
  | [] => ([], Some t)
  | b :: rest =>
      if delivered ctx t then
        match Err b with
        | Some _ => ([phase1Batch b], None)
        | None =>
            let '(outs, r) := relayPhase1 ctx (Datatypes.S t) rest in
            (phase1Batch b :: outs, r)
        end
      else ([], None)
  end.

(** [getwd] is the result of [os.Getwd()], [None] for its error. *)
Definition scanTwoPhasesAsyncCtx (sch : Schedule) (fs : filesystem)
           (getwd : option string) (startPath : string) (maxDepth : Z)
           (useIgnorePatterns : bool) (batchSize : Z)
  : option (list DirBatch) :=
  match getwd with
  | None =>
      match scanDirectoriesAsyncCtx (emit1 sch) fs startPath maxDepth
                                    useIgnorePatterns batchSize with
      | None => None
      | Some singlePhase => Some (relayPlain (relay sch) 0 singlePhase)
      end
  | Some cwd =>
      match scanDirectoriesAsyncCtx (emit1 sch) fs cwd maxDepth
                                    useIgnorePatterns batchSize with
      | None => None
      | Some phase1 =>
          match relayPhase1 (relay sch) 0 phase1 with
          | (out1, None) => Some out1
          | (out1, Some t) =>
              match scanDirectoriesAsyncCtxExcluding
                      (emit2 sch) fs "/" maxDepth useIgnorePatterns
                      batchSize cwd with
              | None => None
              | Some phase2 =>
                  Some (out1 ++ relayPlain (relay sch) t phase2)%list
              end
          end
      end
  end.

(** ** matcher.go *)

Record Match : Type := mkMatch {
  Str : string;
  Index : Z;
  Score : Z;
  MatchedIndexes : list Z
}.

Section Matcher.
(** [fuzzy.Find] of github.com/sahilm/fuzzy. *)
Variable Find : string -> list string -> list Match.

(** [for i, dir := range directories { matches = append(matches, ...) }] *)
Fixpoint matchAll (i : Z) (directories : list string) (matches : list Match)
  : list Match :=
  match directories with
  | [] => matches
  | dir :: rest =>
      matchAll (i + 1)%Z rest (matches ++ [mkMatch dir i 100 []])%list
  end.

Definition fuzzyMatch (query : string) (directories : list string)
  : list Match :=
  if String.eqb query "" then matchAll 0%Z directories []
  else Find query directories.
End Matcher.

(** ** Notions of the specification *)

(** [strings.Split(s, "/")]: the separator-delimited components. *)
Fixpoint components (s : string) : list string :=
  match s with
  | EmptyString => [""]
  | String c s' =>
      if Filepath.isSep c then "" :: components s'
      else
        match components s' with
        | [] => [String c ""]
        | x :: r => String c x :: r
        end
  end.

(** The depth of [path] below [root] as the specification counts it: the
    number of components of the relative path, the root itself (relative
    path ["."]) being at depth 0. *)
Definition specDepth (root path : string) : option Z :=
  match Filepath.Rel root path with
  | None => None
  | Some relPath =>
      if String.eqb relPath "." then Some 0%Z
      else Some (Z.of_nat (List.length (components relPath)))
  end.

(** The number of batches of a stream that are marked done. *)
Definition doneCount (stream : list DirBatch) : nat :=
  List.length (filter Done stream).

Definition notTerminal (b : DirBatch) : Prop :=
  Done b = false /\ Err b = None.

(** What a call of an emitter's callback leaves behind: the batches
    delivered so far are not terminal, and the error returned is [nil],
    [SkipDir], or that of a context that is done. *)
Definition flushedOnly (ctx : Context) (e : option error) (st : emitState)
  : Prop :=
  Forall notTerminal (ch st)
  /\ (e = None \/ e = Some SkipDir
      \/ (e = Some Canceled /\ ctxDone ctx (clock st) = true)).

(** The state in which the walk leaves the goroutine of an emitter with
    callback [fn]: its buffer, its clock and the batches flushed so far. *)
Definition walkEnd (ctx : Context) (fs : filesystem) (config : ScanConfig)
           (fn : WalkDirFunc emitState) : emitState :=
  snd (walkDirContext ctx fs (Root config) fn
         (mkEmitState [] (InitialBatchSize config) 0 0 [])).

(** The terminal batch of an emitter whose walk ended in [st]: the
    directories still buffered, and the cancellation error exactly when the
    context is done at the read that follows the walk, at [clock st]. *)
Definition terminalBatch (ctx : Context) (st : emitState) : DirBatch :=
  mkDirBatch (batch st) true
             (if ctxDone ctx (clock st) then Some Canceled else None).

(** The stream of an emitter whose walk ended in [st]: the batches flushed
    during the walk, none of them terminal, followed by the terminal batch
    unless the final select, at the read after that of [ctx.Err()], took
    the case of [ctx.Done()]. *)
Definition streamShape (ctx : Context) (st : emitState)
           (stream : list DirBatch) : Prop :=
  Forall notTerminal (ch st)
  /\ ((stream = ch st
       /\ ctxDone ctx (Datatypes.S (clock st)) = true
       /\ sendWins ctx (Datatypes.S (clock st)) = false)
      \/ (stream = (ch st ++ [terminalBatch ctx st])%list
          /\ (ctxDone ctx (Datatypes.S (clock st)) = false
              \/ sendWins ctx (Datatypes.S (clock st)) = true)))
  /\ doneCount stream <= 1
  /\ (cancelAt ctx = None ->
      doneCount stream = 1
      /\ stream = (ch st ++ [mkDirBatch (batch st) true None])%list).

(** The rule of adaptive batch sizing: after a flush that brings the
    running count to [count], a threshold [cur] is doubled, capped at [cap],
    once the count exceeds 500. *)
Definition nextThreshold (cap cur count : Z) : Z :=
  if (500 <? count)%Z && (cur <? cap)%Z then Z.min (cur * 2) cap else cur.

(** The thresholds in force at the successive flushes, starting from the
    threshold [cur] and the running count [count]. *)
Fixpoint thresholds (cap cur count : Z) (flushed : list DirBatch) : list Z :=
  match flushed with
  | [] => []
  | b :: rest =>
      let count' := (count + len (Directories b))%Z in
      cur :: thresholds cap (nextThreshold cap cur count') count' rest
  end.

(** The threshold in force after the flushes. *)
Fixpoint thresholdAfter (cap cur count : Z) (flushed : list DirBatch) : Z :=
  match flushed with
  | [] => cur
  | b :: rest =>
      let count' := (count + len (Directories b))%Z in
      thresholdAfter cap (nextThreshold cap cur count') count' rest
  end.

(** The directories a stream carries, in order. *)
Definition allDirectories (stream : list DirBatch) : list string :=
  List.concat (map Directories stream).

(** The directories recorded by the walker are those delivered and
    buffered by the emitter. *)
Definition sameDirectories (dirs : list string) (st : emitState) : Prop :=
  dirs = (allDirectories (ch st) ++ batch st)%list.

(** Two walks return the same error and leave related states. *)
Definition sameResult (S1 S2 : Type) (R : S1 -> S2 -> Prop)
           (r1 : option error * S1) (r2 : option error * S2) : Prop :=
  fst r1 = fst r2 /\ R (snd r1) (snd r2).

(** The number of directories an emitter has appended so far: those
    delivered and those still buffered. *)
Definition emitted (st : emitState) : nat :=
  List.length (allDirectories (ch st)) + List.length (batch st).

(** The flushed batches follow the rule of adaptive batch sizing of a
    configuration: each has exactly the length of the threshold in force
    when it was flushed, and no threshold exceeds [MaxBatchSize]. *)
Definition flushedBySize (config : ScanConfig) (flushed : list DirBatch)
  : Prop :=
  Forall2 (fun b t => len (Directories b) = t
                      /\ (t <= MaxBatchSize config)%Z)
          flushed
          (thresholds (MaxBatchSize config) (InitialBatchSize config) 0
                      flushed)
  /\ (thresholdAfter (MaxBatchSize config) (InitialBatchSize config) 0 flushed
      <= MaxBatchSize config)%Z.

(** The variables of an emitter between two calls of its callback. *)
Definition sizedState (config : ScanConfig) (st : emitState) : Prop :=
  flushedBySize config (ch st)
  /\ currentBatchSize st
     = thresholdAfter (MaxBatchSize config) (InitialBatchSize config) 0 (ch st)
  /\ (0 < currentBatchSize st <= MaxBatchSize config)%Z
  /\ dirCount st = Z.of_nat (emitted st)
  /\ (len (batch st) < currentBatchSize st)%Z.

(** The flushed batches follow the rule, and the buffer is no longer than
    the threshold in force. *)
Definition sizedBuffer (config : ScanConfig) (st : emitState) : Prop :=
  flushedBySize config (ch st)
  /\ (len (batch st)
      <= thresholdAfter (MaxBatchSize config) (InitialBatchSize config) 0
                        (ch st))%Z.

(** As long as fewer than 2^62 directories were appended, the emitter is
    in a sized state, or, after an error that ends the walk, its flushed
    batches follow the rule and its buffer is at most as long as the
    threshold (as long, when the send of a full buffer lost against
    [ctx.Done()]). *)
Definition sized (config : ScanConfig) (e : option error) (st : emitState)
  : Prop :=
  (Z.of_nat (emitted st) < 2 ^ 62)%Z ->
  match e with
  | None | Some SkipDir | Some SkipAll => sizedState config st
  | Some _ => sizedBuffer config st
  end.

(** The same tree with every [os.ReadDir] error removed. *)
Fixpoint healNode (n : node) : node :=
  match n with
  | File name => File name
  | Dir name _ entries => Dir name None (map healNode entries)
  end.

Definition heal (fs : filesystem) : filesystem :=
  fun root =>
    match fs root with
    | LstatErr e => LstatErr e
    | LstatOk n => LstatOk (healNode n)
    end.

(** The number of entries of a tree, the root included. *)
Fixpoint entryCount (n : node) : nat :=
  match n with
  | File _ => 1
  | Dir _ _ entries =>
      Datatypes.S
        ((fix sum (l : list node) : nat :=
            match l with
            | [] => 0
            | x :: l' => entryCount x + sum l'
            end) entries)
  end.

Definition fsEntryCount (fs : filesystem) (root : string) : nat :=
  match fs root with
  | LstatErr _ => 0
  | LstatOk n => entryCount n
  end.

(** ** File systems used as concrete inputs *)

(** [/r] holds one directory [a]; nothing else exists. *)
Definition fsOneDir : filesystem :=
  fun p =>
    if String.eqb p "/r" then LstatOk (Dir "r" None [Dir "a" None []])
    else LstatErr ErrNotExist.

(** The root directory [/] holds one directory [a]. *)
Definition fsSlash : filesystem :=
  fun p =>
    if String.eqb p "/" then LstatOk (Dir "/" None [Dir "a" None []])
    else LstatErr ErrNotExist.

(** The tree of [TestAsyncScanning], below [/tmp/t]. *)
Definition fsAsyncTest : filesystem :=
  fun p =>
    if String.eqb p "/tmp/t" then
      LstatOk
        (Dir "t" None
           [ Dir "dir1" None
               [ Dir "subdir1" None [Dir "deep" None []];
                 Dir "subdir2" None [] ];
             Dir "dir2" None [Dir "subdir1" None []] ])
    else LstatErr ErrNotExist.

(** A tree with an unreadable directory, a file and an ignored directory,
    below [/t]. *)
Definition fsMixed : filesystem :=
  fun p =>
    if String.eqb p "/t" then
      LstatOk
        (Dir "t" None
           [ Dir ".git" None [Dir "hooks" None []];
             File "README";
             Dir "level1" (Some ErrPermission)
               [ Dir "another" None [];
                 Dir "level2" None [Dir "level3" None []] ];
             Dir "regular" None [Dir "dir" None []] ])
    else LstatErr ErrNotExist.

(** No path exists. *)
Definition fsEmpty : filesystem := fun _ => LstatErr ErrNotExist.

(** [/w] holds 900 directories, named [000] to [899]. *)
Definition name3 (n : nat) : string :=
  String (ascii_of_nat (48 + n / 100))
    (String (ascii_of_nat (48 + (n / 10) mod 10))
       (String (ascii_of_nat (48 + n mod 10)) "")).

Definition fsWide : filesystem :=
  fun p =>
    if String.eqb p "/w" then
      LstatOk (Dir "w" None (map (fun n => Dir (name3 n) None []) (seq 0 900)))
    else LstatErr ErrNotExist.

Definition wideDirs : list string :=
  map (fun n => ("/w/" ++ name3 n)%string) (seq 0 900).

(** [count] batches of [size] directories each, cut from [dirs]. *)
Fixpoint cut (count size : nat) (dirs : list string) : list DirBatch :=
  match count with
  | 0 => []
  | Datatypes.S count' =>
      mkDirBatch (firstn size dirs) false None
      :: cut count' size (skipn size dirs)
  end.

(** Six batches of 100 directories, one of 200, and the last 100 in the
    terminal batch. *)
Definition wideStream : list DirBatch :=
  (cut 6 100 wideDirs
   ++ cut 1 200 (skipn 600 wideDirs)
   ++ [mkDirBatch (skipn 800 wideDirs) true None])%list.

Definition cancelledDropping : Context := mkContext (Some 0) (fun _ => false).
Definition cancelledSending : Context := mkContext (Some 0) (fun _ => true).

(** Cancelled at the fifth read of the context, with the sends winning:
    on [fsOneDir] the walk makes four reads, the fifth is that of
    [ctx.Err()] after the walk. *)
Definition cancelledAfterWalk : Context := mkContext (Some 4) (fun _ => true).

(** ** matcher.go: display helpers

    [userHomeDir] is the result of [os.UserHomeDir()], [None] for its
    error. *)

Definition homeDir (userHomeDir : option string) : string :=
  match userHomeDir with
  | Some home => home
  | None => ""
  end.

(** [strings.TrimPrefix(s, prefix)] *)
Definition TrimPrefix (s prefix : string) : string :=
  if String.prefix prefix s
  then substring (String.length prefix)
                 (String.length s - String.length prefix) s
  else s.

Definition formatMatch (userHomeDir : option string) (m : Match) : string :=
  let dir := Str m in
  if String.prefix (homeDir userHomeDir) dir
  then ("~" ++ TrimPrefix dir (homeDir userHomeDir))%string
  else dir.

Definition getMatchScore (m : Match) : Z :=
  if (Score m <? 0)%Z then 0%Z else Score m.

(** ** tui.go: the shared state, key events and the relay of batches *)

(** [uiState] without its mutex: every function below runs with the
    lock held. *)
Record uiState : Type := mkUiState {
  query : string;
  selected : Z;
  scrollOffset : Z;
  directories : list string;
  matches : list Match;
  scanComplete : bool
}.

(** The keys the handlers distinguish; every other key is [KeyOther]. *)
Inductive Key : Type :=
| KeyEscape
| KeyCtrlQ
| KeyEnter
| KeyUp
| KeyDown
| KeyBackspace
| KeyBackspace2
| KeyRune
| KeyOther.

(** [*tcell.EventKey]: its key and its rune (a Go [rune], an [int32]). *)
Record EventKey : Type := mkEventKey { evKey : Key; evRune : Z }.

Definition byteOf (z : Z) : ascii := ascii_of_N (Z.to_N z).

(** [string(r)] for a rune [r]: its UTF-8 encoding, and that of U+FFFD for
    a value that is not a Unicode scalar value. *)
Definition runeString (r : Z) : string :=
  if (r <? 0)%Z || (1114111 <? r)%Z || ((55296 <=? r)%Z && (r <=? 57343)%Z)
  then String (byteOf 239) (String (byteOf 191) (String (byteOf 189) ""))
  else if (r <? 128)%Z then String (byteOf r) ""
  else if (r <? 2048)%Z then
    String (byteOf (Z.lor 192 (Z.shiftr r 6)))
      (String (byteOf (Z.lor 128 (Z.land r 63))) "")
  else if (r <? 65536)%Z then
    String (byteOf (Z.lor 224 (Z.shiftr r 12)))
      (String (byteOf (Z.lor 128 (Z.land (Z.shiftr r 6) 63)))
         (String (byteOf (Z.lor 128 (Z.land r 63))) ""))
  else
    String (byteOf (Z.lor 240 (Z.shiftr r 18)))
      (String (byteOf (Z.lor 128 (Z.land (Z.shiftr r 12) 63)))
         (String (byteOf (Z.lor 128 (Z.land (Z.shiftr r 6) 63)))
            (String (byteOf (Z.lor 128 (Z.land r 63))) ""))).

Definition lenMatches (ms : list Match) : Z := Z.of_nat (List.length ms).


Section Tui.
(** [fuzzy.Find] of github.com/sahilm/fuzzy. *)
Variable Find : string -> list string -> list Match.

(** [handleKeyEventState]; [height] is the second result of
    [screen.Size()].  Returns the result code and the state it leaves. *)
Definition handleKeyEventState (event : EventKey) (height : Z)
           (state : uiState) : Z * uiState :=
  let maxDisplay := wrap64 (height - 5) in
  match evKey event with
  | KeyEscape | KeyCtrlQ => ((-1)%Z, state)
  | KeyEnter => (1%Z, state)
  | KeyUp =>
      if (0 <? selected state)%Z then
        let sel := wrap64 (selected state - 1) in
        let off :=
          if (sel <? scrollOffset state)%Z then sel else scrollOffset state in
        (0%Z, mkUiState (query state) sel off (directories state)
                        (matches state) (scanComplete state))
      else (0%Z, state)
  | KeyDown =>
      if (selected state <? wrap64 (lenMatches (matches state) - 1))%Z then
        let sel := wrap64 (selected state + 1) in
        let off :=
          if (wrap64 (scrollOffset state + maxDisplay) <=? sel)%Z
          then wrap64 (wrap64 (sel - maxDisplay) + 1)
          else scrollOffset state in
        (0%Z, mkUiState (query state) sel off (directories state)
                        (matches state) (scanComplete state))
      else (0%Z, state)
  | KeyBackspace | KeyBackspace2 =>
      if 0 <? String.length (query state) then
        let q := substring 0 (String.length (query state) - 1) (query state) in
        (0%Z, mkUiState q 0 0 (directories state)
                        (fuzzyMatch Find q (directories state))
                        (scanComplete state))
      else (0%Z, state)
  | KeyRune =>
      let q := (query state ++ runeString (evRune event))%string in
      (0%Z, mkUiState q 0 0 (directories state)
                      (fuzzyMatch Find q (directories state))
                      (scanComplete state))
  | KeyOther => (0%Z, state)
  end.

(** What the relay goroutine of [runTUIAsyncCtx] does to the state for
    one received batch. *)
Definition applyBatch (b : DirBatch) (state : uiState) : uiState :=
  let '(dirs, ms) :=
    if (0 <? len (Directories b))%Z then
      let dirs := (directories state ++ Directories b)%list in
      (dirs, fuzzyMatch Find (query state) dirs)
    else (directories state, matches state) in
  mkUiState (query state) (selected state) (scrollOffset state) dirs ms
            (Done b).

(** The non-blocking send of a batch's error on [errorChan], a channel of
    capacity 1: [None] is the empty channel. *)
Definition postError (b : DirBatch) (errorChan : option error)
  : option error :=
  match Err b with
  | Some e =>
      if negb (error_eqb e Canceled) then
        match errorChan with
        | None => Some e
        | Some _ => errorChan
        end
      else errorChan
  | None => errorChan
  end.

(** The relay goroutine, from its [t]-th read of the context on: it
    receives batches until the channel is closed or the case of
    [ctx.Done()] is taken. *)
Fixpoint relayBatches (ctx : Context) (t : nat) (stream : list DirBatch)
         (st : uiState * option error) : uiState * option error :=
  match stream with
  | [] => st
  | b :: rest =>
      if delivered ctx t then
        relayBatches ctx (Datatypes.S t) rest
                     (applyBatch b (fst st), postError b (snd st))
      else st
  end.



(** One step of a session: a key event, or a batch from the scanner. *)
Inductive action : Type :=
| Press (event : EventKey) (height : Z)
| Receive (b : DirBatch).

Definition step (a : action) (state : uiState) : uiState :=
  match a with
  | Press event height => snd (handleKeyEventState event height state)
  | Receive b => applyBatch b state
  end.
End Tui.

(** The state [runTUIAsyncCtx] starts from. *)
Definition initialState : uiState := mkUiState "" 0 0 [] [] false.

(** The selected row lies in the window of [height - 5] rows that starts
    at [scrollOffset], and is a row of the match list unless it is row 0. *)
Definition selectionVisible (height : Z) (state : uiState) : Prop :=
  (0 <= scrollOffset state <= selected state)%Z
  /\ (selected state < scrollOffset state + (height - 5))%Z
  /\ ((selected state < lenMatches (matches state))%Z
      \/ selected state = 0%Z).

(** A batch carries no error, or the error of a cancelled context. *)
Definition cancelOnly (b : DirBatch) : Prop :=
  Err b = None \/ Err b = Some Canceled.

(** The first error of a list of batches that the relay goroutine does
    not pass over: the first that is not [context.Canceled]. *)
Fixpoint firstScanError (stream : list DirBatch) : option error :=
  match stream with
  | [] => None
  | b :: rest =>
      match Err b with
      | Some e => if error_eqb e Canceled then firstScanError rest else Some e
      | None => firstScanError rest
      end
  end.

(** A matcher that finds nothing, to run the interface on. *)
Definition noMatch : string -> list string -> list Match := fun _ _ => [].

(** An error that ends a walk: any error but the two sentinels. *)
Definition fatal (e : option error) : Prop :=
  match e with
  | Some e => error_eqb e SkipDir = false /\ error_eqb e SkipAll = false
  | None => False
  end.

(** Two walks ran in lock-step, or the second one was ended by an error
    in a state that [A] relates to the state of the first. *)
Definition sameOrAborted (S1 S2 : Type) (R A : S1 -> S2 -> Prop)
           (r1 : option error * S1) (r2 : option error * S2) : Prop :=
  sameResult R r1 r2 \/ (fatal (fst r2) /\ A (snd r1) (snd r2)).

(** The directories recorded by the walker start with those delivered and
    buffered by the emitter. *)
Definition extendsEmitted (dirs : list string) (st : emitState) : Prop :=
  exists rest, dirs = ((allDirectories (ch st) ++ batch st) ++ rest)%list.

(** A directory entry with an ignored name. *)
Definition ignoredDir (n : node) : bool :=
  match n with
  | File _ => false
  | Dir name _ _ => shouldIgnore name
  end.

(** The tree without the directories with an ignored name, below its
    root. *)
Fixpoint pruneNode (n : node) : node :=
  match n with
  | File name => File name
  | Dir name readErr entries =>
      Dir name readErr
          (filter (fun x => negb (ignoredDir x)) (map pruneNode entries))
  end.

Definition prune (fs : filesystem) : filesystem :=
  fun root =>
    match fs root with
    | LstatErr e => LstatErr e
    | LstatOk n => LstatOk (pruneNode n)
    end.

(** No entry below [path] is walked under the path [root] itself. *)
Fixpoint aliasFree (root path : string) (n : node) : bool :=
  match n with
  | File _ => true
  | Dir _ _ entries =>
      forallb
        (fun x =>
           negb (String.eqb (Filepath.Join path (Name (entryOf x))) root)
           && aliasFree root (Filepath.Join path (Name (entryOf x))) x)
        entries
  end.

Definition fsAliasFree (fs : filesystem) (root : string) : bool :=
  match fs root with
  | LstatErr _ => true
  | LstatOk n => aliasFree root root n
  end.

(** The tree without its entries that are not directories, below its
    root. *)
Fixpoint dropFiles (n : node) : node :=
  match n with
  | File name => File name
  | Dir name readErr entries =>
      Dir name readErr
          (filter (fun x => IsDir (entryOf x)) (map dropFiles entries))
  end.

Definition directoriesOnly (fs : filesystem) : filesystem :=
  fun root =>
    match fs root with
    | LstatErr e => LstatErr e
    | LstatOk n => LstatOk (dropFiles n)
    end.

(** * Properties *)

(** ** The walk *)

Lemma error_eqb_eq (a b : error) : error_eqb a b = true <-> a = b.
Proof.
  split.
  - destruct a, b; simpl; intro H; try reflexivity; discriminate H.
  - intros ->. destruct b; reflexivity.
Qed.

Lemma error_eqb_refl (a : error) : error_eqb a a = true.
Proof. apply error_eqb_eq. reflexivity. Qed.

Section WalkFacts.
Variable S : Type.
Variable fn : WalkDirFunc S.

Lemma walkDir_Dir path name readErr entries s :
  walkDir fn path (Dir name readErr entries) s =
  let d := mkDirEntry name true in
  let '(err, s1) := fn path (Some d) None s in
  match err with
  | Some e => (skipped true e, s1)
  | None =>
      let '(err2, s2) :=
        match readErr with
        | None => (None, s1)
        | Some re => fn path (Some d) (Some re) s1
        end in
      match err2 with
      | Some e => (skipped true e, s2)
      | None => walkEntries fn path entries s2
      end
  end.
Proof.
  simpl. destruct (fn path _ None s) as [[e|] s1]; [reflexivity|].
  destruct (match readErr with
            | None => (None, s1)
            | Some re => fn path _ (Some re) s1
            end) as [[e|] s2]; [reflexivity|].
  generalize s2. clear.
  induction entries as [|d1 rest IH]; intro s2; simpl; [reflexivity|].
  destruct (walkDir fn _ d1 s2) as [[e|] s']; [reflexivity|].
  apply IH.
Qed.

Lemma walkDir_File path name s :
  walkDir fn path (File name) s =
  let '(err, s1) := fn path (Some (mkDirEntry name false)) None s in
  match err with
  | Some e => (Some e, s1)
  | None => (None, s1)
  end.
Proof.
  simpl. destruct (fn path _ None s) as [[e|] s1]; [|reflexivity].
  unfold skipped. simpl. rewrite andb_false_r. reflexivity.
Qed.

(** A postcondition on the pair of error and state that every call of
    the callback establishes, and that survives turning [SkipDir] and
    [SkipAll] into [nil], holds of the whole walk. *)
Section Post.
Variable Q : option error -> S -> Prop.
Hypothesis Q_call :
  forall path d err s,
    Q None s -> (d = None -> err <> None) ->
    Q (fst (fn path d err s)) (snd (fn path d err s)).
Hypothesis Q_skip : forall s, Q (Some SkipDir) s -> Q None s.

Lemma skipped_post e s : Q (Some e) s -> Q (skipped true e) s.
Proof.
  intro H. unfold skipped. rewrite andb_true_r.
  destruct (error_eqb e SkipDir) eqn:E; [|exact H].
  apply error_eqb_eq in E. subst e. apply Q_skip, H.
Qed.

Lemma walkEntries_post path entries :
  Forall (fun n => forall path s, Q None s ->
            Q (fst (walkDir fn path n s)) (snd (walkDir fn path n s)))
         entries ->
  forall s, Q None s ->
    Q (fst (walkEntries fn path entries s))
      (snd (walkEntries fn path entries s)).
Proof.
  induction 1 as [|d1 rest H1 _ IH]; intros s Hs; simpl; [exact Hs|].
  specialize (H1 (Filepath.Join path (Name (entryOf d1))) s Hs).
  destruct (walkDir fn _ d1 s) as [[e|] s']; simpl in *.
  - destruct (error_eqb e SkipDir) eqn:E; simpl; [|exact H1].
    apply error_eqb_eq in E. subst e. apply Q_skip, H1.
  - apply IH, H1.
Qed.

Lemma walkDir_post n :
  forall path s, Q None s ->
    Q (fst (walkDir fn path n s)) (snd (walkDir fn path n s)).
Proof.
  induction n as [name|name readErr entries IH] using node_ind;
    intros path s Hs.
  - rewrite walkDir_File.
    pose proof (@Q_call path (Some (mkDirEntry name false)) None s Hs) as H.
    destruct (fn path _ None s) as [[e|] s1]; simpl in *;
      apply H; discriminate.
  - rewrite walkDir_Dir. cbv zeta.
    pose proof (@Q_call path (Some (mkDirEntry name true)) None s Hs) as H.
    destruct (fn path _ None s) as [[e|] s1]; simpl in *.
    + apply skipped_post, H. discriminate.
    + assert (H1 : Q None s1) by (apply H; discriminate).
      destruct readErr as [re|].
      * pose proof (@Q_call path (Some (mkDirEntry name true))
                            (Some re) s1 H1) as H2.
        destruct (fn path _ (Some re) s1) as [[e|] s2]; simpl in *.
        -- apply skipped_post, H2. discriminate.
        -- apply walkEntries_post; [exact IH|]. apply H2. discriminate.
      * apply walkEntries_post; [exact IH|exact H1].
Qed.

Hypothesis Q_skipAll : forall s, Q (Some SkipAll) s -> Q None s.

Lemma WalkDir_post fs root s :
  Q None s ->
  Q (fst (WalkDir fn fs root s)) (snd (WalkDir fn fs root s)).
Proof.
  intro Hs. unfold WalkDir.
  assert (H : Q (fst (match fs root with
                      | LstatErr e => fn root None (Some e) s
                      | LstatOk n => walkDir fn root n s
                      end))
                (snd (match fs root with
                      | LstatErr e => fn root None (Some e) s
                      | LstatOk n => walkDir fn root n s
                      end))).
  { destruct (fs root) as [e|n].
    - apply Q_call; [exact Hs|]. intros _. discriminate.
    - apply walkDir_post, Hs. }
  destruct (match fs root with
            | LstatErr e => fn root None (Some e) s
            | LstatOk n => walkDir fn root n s
            end) as [[e|] s']; simpl in *; [|exact H].
  destruct (error_eqb e SkipDir) eqn:E1; simpl.
  - apply error_eqb_eq in E1. subst e. apply Q_skip, H.
  - destruct (error_eqb e SkipAll) eqn:E2; simpl; [|exact H].
    apply error_eqb_eq in E2. subst e. apply Q_skipAll, H.
Qed.
End Post.
End WalkFacts.

(** Two callbacks that step in lock-step, returning the same error and
    keeping their states related, give walks that do the same. *)
Section WalkSim.
Variables S1 S2 : Type.
Variable R : S1 -> S2 -> Prop.
Variable fn1 : WalkDirFunc S1.
Variable fn2 : WalkDirFunc S2.
Hypothesis R_call :
  forall path d err s1 s2,
    R s1 s2 -> (d = None -> err <> None) ->
    fst (fn1 path d err s1) = fst (fn2 path d err s2)
    /\ R (snd (fn1 path d err s1)) (snd (fn2 path d err s2)).

Local Abbreviation sameWalk := (sameResult R).

Lemma walkEntries_sim path entries :
  Forall (fun n => forall path s1 s2, R s1 s2 ->
            sameWalk (walkDir fn1 path n s1) (walkDir fn2 path n s2))
         entries ->
  forall s1 s2, R s1 s2 ->
    sameWalk (walkEntries fn1 path entries s1)
             (walkEntries fn2 path entries s2).
Proof.
  induction 1 as [|d1 rest H1 _ IH]; intros s1 s2 Hs; simpl.
  - split; [reflexivity|exact Hs].
  - destruct (H1 (Filepath.Join path (Name (entryOf d1))) s1 s2 Hs)
      as [He Hr].
    destruct (walkDir fn1 _ d1 s1) as [e1 s1'].
    destruct (walkDir fn2 _ d1 s2) as [e2 s2'].
    simpl in He, Hr. subst e2.
    destruct e1 as [e|]; [|apply IH, Hr].
    destruct (error_eqb e SkipDir); split; simpl; auto.
Qed.

Lemma walkDir_sim n :
  forall path s1 s2, R s1 s2 ->
    sameWalk (walkDir fn1 path n s1) (walkDir fn2 path n s2).
Proof.
  induction n as [name|name readErr entries IH] using node_ind;
    intros path s1 s2 Hs.
  - rewrite !walkDir_File.
    destruct (@R_call path (Some (mkDirEntry name false)) None s1 s2 Hs)
      as [He Hr]; [discriminate|].
    destruct (fn1 path _ None s1) as [e1 s1'].
    destruct (fn2 path _ None s2) as [e2 s2'].
    simpl in He, Hr. subst e2.
    destruct e1; split; simpl; auto.
  - rewrite !walkDir_Dir. cbv zeta.
    destruct (@R_call path (Some (mkDirEntry name true)) None s1 s2 Hs)
      as [He Hr]; [discriminate|].
    destruct (fn1 path _ None s1) as [e1 s1'].
    destruct (fn2 path _ None s2) as [e2 s2'].
    simpl in He, Hr. subst e2.
    destruct e1 as [e|]; [split; simpl; auto|].
    destruct readErr as [re|].
    + destruct (@R_call path (Some (mkDirEntry name true)) (Some re)
                        s1' s2' Hr)
        as [He2 Hr2]; [discriminate|].
      destruct (fn1 path _ (Some re) s1') as [e1 t1].
      destruct (fn2 path _ (Some re) s2') as [e2 t2].
      simpl in He2, Hr2. subst e2.
      destruct e1 as [e|]; [split; simpl; auto|].
      apply walkEntries_sim; assumption.
    + apply walkEntries_sim; assumption.
Qed.

Lemma WalkDir_sim fs root s1 s2 :
  R s1 s2 -> sameWalk (WalkDir fn1 fs root s1) (WalkDir fn2 fs root s2).
Proof.
  intro Hs. unfold WalkDir.
  assert (H : sameWalk
                (match fs root with
                 | LstatErr e => fn1 root None (Some e) s1
                 | LstatOk n => walkDir fn1 root n s1
                 end)
                (match fs root with
                 | LstatErr e => fn2 root None (Some e) s2
                 | LstatOk n => walkDir fn2 root n s2
                 end)).
  { destruct (fs root) as [e|n].
    - apply R_call; [exact Hs|]. intros _. discriminate.
    - apply walkDir_sim, Hs. }
  destruct (match fs root with
            | LstatErr e => fn1 root None (Some e) s1
            | LstatOk n => walkDir fn1 root n s1
            end) as [e1 s1'].
  destruct (match fs root with
            | LstatErr e => fn2 root None (Some e) s2
            | LstatOk n => walkDir fn2 root n s2
            end) as [e2 s2'].
  destruct H as [He Hr]. simpl in He, Hr. subst e2.
  destruct e1 as [e|]; [|split; simpl; auto].
  destruct (error_eqb e SkipDir || error_eqb e SkipAll); split; simpl; auto.
Qed.
End WalkSim.

(** ** Depth policy *)

Lemma countSep_nonneg s : (0 <= Filepath.countSep s)%Z.
Proof.
  induction s as [|c s IH]; simpl; [lia|].
  destruct (Filepath.isSep c); lia.
Qed.

Lemma components_count s :
  Z.of_nat (List.length (components s)) = (Filepath.countSep s + 1)%Z.
Proof.
  induction s as [|c s IH]; [reflexivity|].
  simpl. destruct (Filepath.isSep c).
  - simpl List.length. lia.
  - pose proof (countSep_nonneg s) as Hs.
    destruct (components s) as [|x r]; simpl List.length in *; lia.
Qed.

Lemma isWithinDepth_true path root maxDepth :
  isWithinDepth path root maxDepth = true <->
  exists relPath,
    Filepath.Rel root path = Some relPath
    /\ (Filepath.countSep relPath <= maxDepth)%Z.
Proof.
  unfold isWithinDepth. split.
  - destruct (Filepath.Rel root path) as [relPath|]; [|discriminate].
    intro H. exists relPath. split; [reflexivity|]. apply Z.leb_le, H.
  - intros [relPath [-> H]]. apply Z.leb_le, H.
Qed.

(** C7, as amended: the depth [isWithinDepth] compares with [maxDepth] is
    the number of separators in the relative path from root to path, one
    less than the number of its components; the function returns true iff
    the relative path exists and that number is at most [maxDepth], hence
    false when the relative path cannot be computed.  For
    [/home/user/level1/level2/level3] below [/home/user] the relative path
    has three components and two separators, so the answer for
    [maxDepth = 2] is true. *)
Theorem isWithinDepth_counts_separators path root maxDepth :
  (isWithinDepth path root maxDepth = true <->
   exists relPath,
     Filepath.Rel root path = Some relPath
     /\ (Z.of_nat (List.length (components relPath)) - 1 <= maxDepth)%Z)
  /\ (Filepath.Rel root path = None ->
      isWithinDepth path root maxDepth = false)
  /\ isWithinDepth "/home/user/level1/level2/level3" "/home/user" 2 = true
  /\ Filepath.Rel "/home/user" "/home/user/level1/level2/level3"
     = Some "level1/level2/level3".
Proof.
  split; [|split; [|split]].
  - rewrite isWithinDepth_true.
    split; intros [relPath [H1 H2]]; exists relPath; split; try exact H1;
      rewrite components_count in *; lia.
  - unfold isWithinDepth. intros ->. reflexivity.
  - vm_compute. reflexivity.
  - vm_compute. reflexivity.
Qed.

(** C7 as stated fails on its own scenario: the path has depth 3 in the
    claim's count of components, 3 is not at most 2, and [isWithinDepth]
    still returns true. *)
Lemma isWithinDepth_not_components :
  specDepth "/home/user" "/home/user/level1/level2/level3" = Some 3%Z
  /\ (3 <=? 2)%Z = false
  /\ isWithinDepth "/home/user/level1/level2/level3" "/home/user" 2 = true
  /\ specDepth "/home/user" "/home/user/level1" = Some 1%Z
  /\ isWithinDepth "/home/user/level1" "/home/user" 0 = true.
Proof. vm_compute. repeat split; reflexivity. Qed.

(** ** The synchronous walker *)

Lemma scanVisit_err root maxDepth ig path d re dirs :
  scanVisit root maxDepth ig path d (Some re) dirs = (None, dirs).
Proof. reflexivity. Qed.

(** Every recorded path passed the guards of the callback. *)
Lemma scanDirectories_guards fs root maxDepth ig :
  Forall (fun p => p <> root /\ isWithinDepth p root maxDepth = true)
         (fst (scanDirectories fs root maxDepth ig)).
Proof.
  unfold scanDirectories.
  pose (Q := fun (_ : option error) (dirs : list string) =>
               Forall (fun p => p <> root
                                /\ isWithinDepth p root maxDepth = true) dirs).
  assert (H : Q (fst (WalkDir (scanVisit root maxDepth ig) fs root []))
                (snd (WalkDir (scanVisit root maxDepth ig) fs root []))).
  { apply WalkDir_post; unfold Q; auto.
    intros path d err dirs Hd _. unfold scanVisit.
    destruct err; [exact Hd|]. destruct d as [d|]; [|exact Hd].
    destruct (negb (IsDir d)); [exact Hd|].
    destruct (String.eqb path root) eqn:E1; [exact Hd|].
    destruct (isWithinDepth path root maxDepth) eqn:E2; [|exact Hd].
    simpl. destruct (ig && shouldIgnore (Name d)); [exact Hd|].
    simpl. apply Forall_app. split; [exact Hd|].
    constructor; [|constructor]. split; [|exact E2].
    apply String.eqb_neq, E1. }
  destruct (WalkDir (scanVisit root maxDepth ig) fs root []) as [e dirs].
  exact H.
Qed.

(** The walker never returns an error. *)
Lemma scanDirectories_no_error fs root maxDepth ig :
  snd (scanDirectories fs root maxDepth ig) = None.
Proof.
  unfold scanDirectories.
  pose (Q := fun (e : option error) (_ : list string) =>
               e = None \/ e = Some SkipDir).
  assert (H : Q (fst (WalkDir (scanVisit root maxDepth ig) fs root []))
                (snd (WalkDir (scanVisit root maxDepth ig) fs root []))).
  { apply WalkDir_post; unfold Q; auto.
    intros path d err dirs _ Hd. unfold scanVisit.
    destruct err; [auto|]. destruct d as [d|]; [|exfalso; now apply Hd].
    destruct (negb (IsDir d)); [auto|].
    destruct (String.eqb path root); [auto|].
    destruct (negb (isWithinDepth path root maxDepth)); [auto|].
    destruct (ig && shouldIgnore (Name d)); auto. }
  unfold WalkDir in *.
  destruct (match fs root with
            | LstatErr e => _
            | LstatOk n => _
            end) as [[e|] s']; [|reflexivity].
  destruct (error_eqb e SkipDir || error_eqb e SkipAll) eqn:E; [reflexivity|].
  simpl in H. destruct H as [H|H]; [discriminate H|].
  inversion H. subst e. discriminate E.
Qed.

(** C6, as amended: no path returned by [scanDirectories] has more than
    [maxDepth + 1] components below the root (the separators of its
    relative path number at most [maxDepth]), and the root itself is never
    returned. *)
Theorem scanDirectories_depth_bound fs root maxDepth ig path :
  In path (fst (scanDirectories fs root maxDepth ig)) ->
  path <> root
  /\ exists k, specDepth root path = Some k /\ (k <= maxDepth + 1)%Z.
Proof.
  intro Hin.
  pose proof (scanDirectories_guards fs root maxDepth ig) as H.
  rewrite Forall_forall in H. destruct (H path Hin) as [Hne Hd].
  split; [exact Hne|].
  apply isWithinDepth_true in Hd. destruct Hd as [relPath [Hr Hc]].
  unfold specDepth. rewrite Hr.
  pose proof (countSep_nonneg relPath).
  destruct (String.eqb relPath ".").
  - exists 0%Z. split; [reflexivity|lia].
  - eexists. split; [reflexivity|]. rewrite components_count. lia.
Qed.

Lemma scanDirectories_depth_bound_witness :
  In "/r/a" (fst (scanDirectories fsOneDir "/r" 0 true))
  /\ "/r/a" <> "/r"
  /\ exists k, specDepth "/r" "/r/a" = Some k /\ (k <= 0 + 1)%Z.
Proof.
  assert (H : In "/r/a" (fst (scanDirectories fsOneDir "/r" 0 true)))
    by (vm_compute; left; reflexivity).
  split; [exact H|].
  exact (scanDirectories_depth_bound fsOneDir "/r" 0 true "/r/a" H).
Defined.

(** C6 as stated fails: with [maxDepth = 0] the walker returns the
    directories directly below the root, whose depth is 1. *)
Lemma scanDirectories_depth_exceeds :
  scanDirectories fsOneDir "/r" 0 true = (["/r/a"], None)
  /\ specDepth "/r" "/r/a" = Some 1%Z
  /\ (1 >? 0)%Z = true.
Proof. vm_compute. repeat split; reflexivity. Qed.

(** A callback that ignores the report of a read error walks a tree as
    it walks the tree without read errors. *)
Section Heal.
Variable S : Type.
Variable fn : WalkDirFunc S.
Hypothesis fn_err : forall path d re s, fn path d (Some re) s = (None, s).

Lemma entryOf_heal n : entryOf (healNode n) = entryOf n.
Proof. destruct n; reflexivity. Qed.

Lemma walkDir_heal n :
  forall path s, walkDir fn path (healNode n) s = walkDir fn path n s.
Proof.
  induction n as [name|name readErr entries IH] using node_ind;
    intros path s; [reflexivity|].
  change (healNode (Dir name readErr entries))
    with (Dir name None (map healNode entries)).
  rewrite !walkDir_Dir. cbv zeta.
  destruct (fn path _ None s) as [[e|] s1]; [reflexivity|].
  assert (E : match readErr with
              | None => (None, s1)
              | Some re => fn path (Some (mkDirEntry name true)) (Some re) s1
              end = (None, s1))
    by (destruct readErr; [apply fn_err|reflexivity]).
  rewrite E. clear E. generalize s1.
  induction IH as [|d1 rest H1 _ IHrest]; intro s2; simpl; [reflexivity|].
  rewrite entryOf_heal, H1.
  destruct (walkDir fn _ d1 s2) as [[e|] s']; [reflexivity|].
  apply IHrest.
Qed.

Lemma WalkDir_heal fs root s :
  WalkDir fn (heal fs) root s = WalkDir fn fs root s.
Proof.
  unfold WalkDir, heal. destruct (fs root) as [e|n]; [reflexivity|].
  rewrite walkDir_heal. reflexivity.
Qed.
End Heal.

Lemma scanDirectories_heal fs root maxDepth ig :
  scanDirectories (heal fs) root maxDepth ig
  = scanDirectories fs root maxDepth ig.
Proof.
  unfold scanDirectories. rewrite WalkDir_heal; [reflexivity|].
  intros. reflexivity.
Qed.

Lemma scanDirectories_unreachable fs root maxDepth ig e :
  fs root = LstatErr e -> scanDirectories fs root maxDepth ig = ([], None).
Proof.
  intro H. unfold scanDirectories, WalkDir. rewrite H. reflexivity.
Qed.

(** ** The matcher *)

Section MatcherFacts.
Variable Find : string -> list string -> list Match.

Lemma matchAll_spec directories :
  forall k matches,
    matchAll (Z.of_nat k) directories matches
    = (matches
       ++ map (fun p => mkMatch (snd p) (Z.of_nat (fst p)) 100 [])
              (combine (seq k (List.length directories)) directories))%list.
Proof.
  induction directories as [|dir rest IH]; intros k matches; simpl.
  - rewrite app_nil_r. reflexivity.
  - replace (Z.of_nat k + 1)%Z with (Z.of_nat (Datatypes.S k)) by lia.
    rewrite IH, <- app_assoc. reflexivity.
Qed.

Lemma nth_error_numbered (directories : list string) :
  forall k i dir,
    nth_error directories i = Some dir ->
    nth_error (combine (seq k (List.length directories)) directories) i
    = Some (k + i, dir).
Proof.
  induction directories as [|d r IH]; intros k i dir Hi;
    [destruct i; discriminate Hi|].
  destruct i as [|i]; simpl in *.
  - inversion Hi. rewrite Nat.add_0_r. reflexivity.
  - rewrite (IH (Datatypes.S k) i dir Hi). f_equal. f_equal. lia.
Qed.

Lemma map_snd_numbered (directories : list string) :
  forall k,
    map snd (combine (seq k (List.length directories)) directories)
    = directories.
Proof.
  induction directories as [|d r IH]; intro k; [reflexivity|].
  simpl. f_equal. apply IH.
Qed.

(** C10: with the empty query, [fuzzyMatch] returns one match per
    directory, in the order of the input, each with the directory string,
    its index in the input, the score 100 and no matched indexes. *)
Theorem fuzzyMatch_empty_query directories :
  List.length (fuzzyMatch Find "" directories) = List.length directories
  /\ map Str (fuzzyMatch Find "" directories) = directories
  /\ forall i dir,
       nth_error directories i = Some dir ->
       nth_error (fuzzyMatch Find "" directories) i
       = Some (mkMatch dir (Z.of_nat i) 100 []).
Proof.
  unfold fuzzyMatch. simpl.
  change 0%Z with (Z.of_nat 0). rewrite matchAll_spec. simpl.
  split; [|split].
  - rewrite length_map, length_combine, length_seq. lia.
  - rewrite map_map. simpl. apply map_snd_numbered.
  - intros i dir Hi. rewrite nth_error_map.
    rewrite (nth_error_numbered directories 0 i Hi). reflexivity.
Qed.
End MatcherFacts.

(** ** The streaming emitters *)

Lemma ctxDone_mono ctx t t' :
  t <= t' -> ctxDone ctx t = true -> ctxDone ctx t' = true.
Proof.
  unfold ctxDone. destruct (cancelAt ctx) as [k|]; [|discriminate].
  rewrite !Nat.leb_le. lia.
Qed.

Lemma ctxDone_never ctx t : cancelAt ctx = None -> ctxDone ctx t = false.
Proof. unfold ctxDone. intros ->. reflexivity. Qed.

Lemma ctxDone_cancelled ctx t : ctxDone ctx t = true -> cancelAt ctx <> None.
Proof. unfold ctxDone. destruct (cancelAt ctx); [discriminate|discriminate]. Qed.

Lemma WalkDir_no_skip (S : Type) (fn : WalkDirFunc S) fs root s :
  fst (WalkDir fn fs root s) <> Some SkipDir
  /\ fst (WalkDir fn fs root s) <> Some SkipAll.
Proof.
  unfold WalkDir.
  destruct (match fs root with
            | LstatErr e => _
            | LstatOk n => _
            end) as [[e|] s']; simpl; [|split; discriminate].
  destruct (error_eqb e SkipDir) eqn:E1; simpl; [split; discriminate|].
  destruct (error_eqb e SkipAll) eqn:E2; simpl; [split; discriminate|].
  split; intro H; inversion H; subst e; discriminate.
Qed.

(** The emitter without an excluded path is the exclusion-aware emitter
    with the empty path. *)
Lemma scanWithConfigCtx_excluding ctx fs config :
  scanWithConfigCtx ctx fs config = scanWithConfigCtxExcluding ctx fs config "".
Proof. reflexivity. Qed.

Lemma doneCount_app l1 l2 : doneCount (l1 ++ l2) = doneCount l1 + doneCount l2.
Proof. unfold doneCount. rewrite filter_app, length_app. reflexivity. Qed.

Lemma doneCount_flushed l : Forall notTerminal l -> doneCount l = 0.
Proof.
  unfold doneCount. induction 1 as [|b l [Hb _] _ IH]; [reflexivity|].
  simpl. rewrite Hb. exact IH.
Qed.

Section Emitter.
Variable ctx : Context.
Variable config : ScanConfig.
Variable excludePath : string.

Local Abbreviation visit :=
  (contextVisit ctx (emitVisitExcluding ctx config excludePath)).

Lemma visit_flushedOnly path d err st :
  flushedOnly ctx None st -> (d = None -> err <> None) ->
  flushedOnly ctx (fst (visit path d err st)) (snd (visit path d err st)).
Proof.
  intros [Hch _] Hd. unfold contextVisit, pollDone, tick. simpl.
  destruct (ctxDone ctx (clock st)) eqn:E0.
  { split; [exact Hch|]. right. right. split; [reflexivity|]. simpl.
    eapply ctxDone_mono; [|exact E0]. lia. }
  unfold emitVisitExcluding, pollDone, tick. simpl.
  destruct (ctxDone ctx (Datatypes.S (clock st))) eqn:E1.
  { split; [exact Hch|]. right. right. split; [reflexivity|]. simpl.
    eapply ctxDone_mono; [|exact E1]. lia. }
  destruct err as [re|]; [split; [exact Hch|auto]|].
  destruct d as [d|]; [|exfalso; now apply Hd].
  destruct (negb (IsDir d)); [split; [exact Hch|auto]|].
  destruct (String.eqb path (Root config)); [split; [exact Hch|auto]|].
  destruct (excluded excludePath path); [split; [exact Hch|auto]|].
  destruct (negb (isWithinDepth path (Root config) (MaxDepth config)));
    [split; [exact Hch|auto]|].
  destruct (UseIgnorePatterns config && shouldIgnore (Name d));
    [split; [exact Hch|auto]|].
  unfold appendAndFlush, trySend, tick. simpl.
  destruct (currentBatchSize st <=? len (batch st ++ [path]))%Z;
    [|split; [exact Hch|auto]].
  simpl.
  destruct (ctxDone ctx (Datatypes.S (Datatypes.S (clock st)))
            && negb (sendWins ctx (Datatypes.S (Datatypes.S (clock st)))))
           eqn:E2; simpl.
  - split; [exact Hch|]. right. right. split; [reflexivity|].
    apply andb_true_iff in E2. destruct E2 as [E2 _].
    eapply ctxDone_mono; [|exact E2]. simpl. lia.
  - split; [|auto]. apply Forall_app. split; [exact Hch|].
    constructor; [|constructor]. split; reflexivity.
Qed.

Lemma walk_flushedOnly fs root st :
  Forall notTerminal (ch st) ->
  flushedOnly ctx
    (fst (walkDirContext ctx fs root
            (emitVisitExcluding ctx config excludePath) st))
    (snd (walkDirContext ctx fs root
            (emitVisitExcluding ctx config excludePath) st)).
Proof.
  intro Hch. unfold walkDirContext.
  apply (@WalkDir_post emitState visit (flushedOnly ctx)).
  - apply visit_flushedOnly.
  - intros s [H _]. split; auto.
  - intros s [H _]. split; auto.
  - split; auto.
Qed.

(** The shape of the stream of an emitter. *)
Lemma emitter_shape fs stream :
  scanWithConfigCtxExcluding ctx fs config excludePath = Some stream ->
  exists flushed,
    Forall notTerminal flushed
    /\ ((stream = flushed /\ cancelAt ctx <> None)
        \/ exists dirs t,
             stream
             = (flushed
                ++ [mkDirBatch dirs true
                      (if ctxDone ctx t then Some Canceled else None)])%list).
Proof.
  unfold scanWithConfigCtxExcluding, emitter.
  destruct (InitialBatchSize config <? 0)%Z; [discriminate|].
  pose proof (@walk_flushedOnly fs (Root config)
                (mkEmitState [] (InitialBatchSize config) 0 0 [])
                (Forall_nil _)) as H.
  pose proof (WalkDir_no_skip visit fs (Root config)
                (mkEmitState [] (InitialBatchSize config) 0 0 []))
    as [Hs _].
  fold (walkDirContext ctx fs (Root config)
          (emitVisitExcluding ctx config excludePath)
          (mkEmitState [] (InitialBatchSize config) 0 0 [])) in Hs.
  destruct (walkDirContext ctx fs (Root config) _ _) as [err st].
  simpl in H, Hs. destruct H as [Hch He].
  intro E. inversion E as [E']. clear E E'.
  exists (ch st). split; [exact Hch|].
  assert (Herr : (if ctxDone ctx (clock st) then Some Canceled else err)
                 = if ctxDone ctx (clock st) then Some Canceled else None).
  { destruct (ctxDone ctx (clock st)) eqn:E0; [reflexivity|].
    destruct He as [->|[->|[_ He]]];
      [reflexivity|contradiction|discriminate]. }
  unfold finish, pollDone, trySend, tick. simpl. rewrite Herr.
  destruct (ctxDone ctx (Datatypes.S (clock st))
            && negb (sendWins ctx (Datatypes.S (clock st)))) eqn:E2.
  - left. apply andb_true_iff in E2. destruct E2 as [E2 _].
    apply ctxDone_cancelled in E2.
    destruct ((0 <? len (batch st))%Z || _); simpl; auto.
  - right.
    destruct ((0 <? len (batch st))%Z || _); simpl;
      eexists; exists (clock st); reflexivity.
Qed.

(** The stream of an emitter, from the state in which its walk ended. *)
Lemma emitter_stream fs stream :
  scanWithConfigCtxExcluding ctx fs config excludePath = Some stream ->
  streamShape ctx
    (walkEnd ctx fs config (emitVisitExcluding ctx config excludePath))
    stream.
Proof.
  unfold scanWithConfigCtxExcluding, emitter, walkEnd.
  destruct (InitialBatchSize config <? 0)%Z; [discriminate|].
  pose proof (@walk_flushedOnly fs (Root config)
                (mkEmitState [] (InitialBatchSize config) 0 0 [])
                (Forall_nil _)) as H.
  pose proof (WalkDir_no_skip visit fs (Root config)
                (mkEmitState [] (InitialBatchSize config) 0 0 []))
    as [Hs _].
  fold (walkDirContext ctx fs (Root config)
          (emitVisitExcluding ctx config excludePath)
          (mkEmitState [] (InitialBatchSize config) 0 0 [])) in Hs.
  destruct (walkDirContext ctx fs (Root config) _ _) as [err st].
  simpl in H, Hs. destruct H as [Hch He].
  intro E. inversion E as [E']. clear E E'. simpl snd.
  assert (Herr : (if ctxDone ctx (clock st) then Some Canceled else err)
                 = if ctxDone ctx (clock st) then Some Canceled else None).
  { destruct (ctxDone ctx (clock st)) eqn:E0; [reflexivity|].
    destruct He as [->|[->|[_ He]]];
      [reflexivity|contradiction|discriminate]. }
  assert (Hfin : ch (finish ctx err st)
                 = (ch st
                    ++ if ctxDone ctx (Datatypes.S (clock st))
                          && negb (sendWins ctx (Datatypes.S (clock st)))
                       then [] else [terminalBatch ctx st])%list).
  { unfold finish, pollDone, trySend, tick, terminalBatch. simpl.
    rewrite Herr.
    destruct (ctxDone ctx (Datatypes.S (clock st))
              && negb (sendWins ctx (Datatypes.S (clock st)))).
    - destruct ((0 <? len (batch st))%Z || _); simpl;
        rewrite app_nil_r; reflexivity.
    - destruct ((0 <? len (batch st))%Z || _) eqn:Eb; simpl;
        [reflexivity|].
      apply orb_false_iff in Eb. destruct Eb as [Eb _].
      apply Z.ltb_ge in Eb. unfold len in Eb.
      destruct (batch st); [reflexivity|simpl in Eb; lia]. }
  rewrite Hfin. clear Hfin Herr. unfold streamShape.
  pose proof (doneCount_flushed Hch) as H0.
  split; [exact Hch|].
  destruct (ctxDone ctx (Datatypes.S (clock st))) eqn:E1;
    [destruct (sendWins ctx (Datatypes.S (clock st))) eqn:E2|]; simpl.
  - split; [right; split; [reflexivity|right; reflexivity]|].
    rewrite doneCount_app, H0. unfold doneCount. simpl.
    split; [lia|]. intro Hn.
    rewrite (ctxDone_never ctx _ Hn) in E1. discriminate.
  - rewrite app_nil_r.
    split; [left; repeat split; reflexivity|].
    rewrite H0. split; [lia|]. intro Hn.
    rewrite (ctxDone_never ctx _ Hn) in E1. discriminate.
  - split; [right; split; [reflexivity|left; reflexivity]|].
    rewrite doneCount_app, H0. unfold doneCount. simpl.
    split; [lia|]. intro Hn. split; [reflexivity|].
    unfold terminalBatch. rewrite (ctxDone_never ctx _ Hn). reflexivity.
Qed.
End Emitter.

(** C1, as amended: the stream of an emitter consists of the batches
    flushed during the walk, which are not done and carry no error,
    followed by at most one batch with [done = true], which is then the
    last value of the stream and holds the directories still buffered.  Its
    error is the cancellation error exactly when the context is done at the
    read of [ctx.Err()] that follows the walk, and nil otherwise.  The
    stream ends without a terminal batch only when, at the read of the final
    select, the context is done and the case of [ctx.Done()] is taken.  When
    the context is never cancelled there is exactly one batch with
    [done = true], without error. *)
Theorem emitter_stream_shape ctx fs config excludePath stream :
  (scanWithConfigCtx ctx fs config = Some stream ->
   streamShape ctx (walkEnd ctx fs config (emitVisit ctx config)) stream)
  /\ (scanWithConfigCtxExcluding ctx fs config excludePath = Some stream ->
      streamShape ctx
        (walkEnd ctx fs config (emitVisitExcluding ctx config excludePath))
        stream).
Proof.
  split; intro H.
  - exact (@emitter_stream ctx config "" fs stream H).
  - exact (@emitter_stream ctx config excludePath fs stream H).
Qed.

Lemma emitter_stream_shape_witness :
  scanWithConfigCtx cancelledAfterWalk fsOneDir (asyncConfig "/r" 5 true 10)
  = Some [mkDirBatch ["/r/a"] true (Some Canceled)]
  /\ clock (walkEnd cancelledAfterWalk fsOneDir (asyncConfig "/r" 5 true 10)
              (emitVisit cancelledAfterWalk (asyncConfig "/r" 5 true 10)))
     = 4
  /\ streamShape cancelledAfterWalk
       (walkEnd cancelledAfterWalk fsOneDir (asyncConfig "/r" 5 true 10)
          (emitVisit cancelledAfterWalk (asyncConfig "/r" 5 true 10)))
       [mkDirBatch ["/r/a"] true (Some Canceled)].
Proof.
  assert (H : scanWithConfigCtx cancelledAfterWalk fsOneDir
                (asyncConfig "/r" 5 true 10)
              = Some [mkDirBatch ["/r/a"] true (Some Canceled)])
    by (vm_compute; reflexivity).
  split; [exact H|]. split; [vm_compute; reflexivity|].
  exact (proj1 (emitter_stream_shape cancelledAfterWalk fsOneDir
                  (asyncConfig "/r" 5 true 10) ""
                  [mkDirBatch ["/r/a"] true (Some Canceled)]) H).
Defined.

(** C1 as stated fails: on a cancelled context the final select may take
    the case of [ctx.Done()], and the stream ends without any batch, so
    without a batch with [done = true] and without the cancellation
    error. *)
Lemma emitter_stream_without_done :
  cancelAt cancelledDropping = Some 0
  /\ scanWithConfigCtx cancelledDropping fsOneDir (asyncConfig "/r" 5 true 10)
     = Some []
  /\ scanWithConfigCtxExcluding cancelledDropping fsOneDir
       (asyncConfig "/r" 5 true 10) "/x"
     = Some []
  /\ doneCount [] = 0.
Proof. vm_compute. repeat split; reflexivity. Qed.

(** ** Errors *)

Lemma emitter_errors ctx fs config excludePath stream b :
  scanWithConfigCtxExcluding ctx fs config excludePath = Some stream ->
  In b stream -> Err b = None \/ Err b = Some Canceled.
Proof.
  intros H Hin.
  destruct (emitter_shape _ _ _ _ H) as [flushed [Hf Hs]].
  rewrite Forall_forall in Hf.
  destruct Hs as [[-> _]|[dirs [t ->]]].
  - left. apply (Hf b Hin).
  - apply in_app_or in Hin. destruct Hin as [Hin|[<-|[]]].
    + left. apply (Hf b Hin).
    + simpl. destruct (ctxDone ctx t); auto.
Qed.

Lemma scanDirectoriesAsync_unreachable fs root maxDepth ig batchSize e :
  fs root = LstatErr e -> (0 <= batchSize)%Z ->
  scanDirectoriesAsync fs root maxDepth ig batchSize
  = Some [mkDirBatch [] true None].
Proof.
  intros H Hb.
  unfold scanDirectoriesAsync, scanDirectoriesAsyncCtx, scanWithConfigCtx,
    emitter, walkDirContext, WalkDir.
  simpl. rewrite H.
  destruct (batchSize <? 0)%Z eqn:E; [apply Z.ltb_lt in E; lia|].
  reflexivity.
Qed.

(** C3, as amended: errors met during the walk are swallowed and the walk
    continues, and so is the failure to reach the root.  [scanDirectories]
    never returns an error, returns what it returns on the same tree
    without read errors, and returns no directory and no error when the
    root is unreachable; the streaming variants report no error on the
    terminal batch for an unreachable root, and no error other than the
    cancellation error on any batch. *)
Theorem scan_errors_swallowed fs root maxDepth ig :
  snd (scanDirectories fs root maxDepth ig) = None
  /\ scanDirectories (heal fs) root maxDepth ig
     = scanDirectories fs root maxDepth ig
  /\ (forall e, fs root = LstatErr e ->
        scanDirectories fs root maxDepth ig = ([], None))
  /\ (forall e batchSize, fs root = LstatErr e -> (0 <= batchSize)%Z ->
        scanDirectoriesAsync fs root maxDepth ig batchSize
        = Some [mkDirBatch [] true None])
  /\ (forall ctx config excludePath stream b,
        scanWithConfigCtx ctx fs config = Some stream
        \/ scanWithConfigCtxExcluding ctx fs config excludePath = Some stream ->
        In b stream -> Err b = None \/ Err b = Some Canceled).
Proof.
  split; [apply scanDirectories_no_error|].
  split; [apply scanDirectories_heal|].
  split; [intros e; apply scanDirectories_unreachable|].
  split; [intros e batchSize; apply scanDirectoriesAsync_unreachable|].
  intros ctx config excludePath stream b [H|H] Hin.
  - rewrite scanWithConfigCtx_excluding in H.
    eapply emitter_errors; eassumption.
  - eapply emitter_errors; eassumption.
Qed.

(** C3 as stated fails: for a root that does not exist, [scanDirectories]
    returns no error, and the terminal batch of the stream carries none. *)
Lemma root_error_not_propagated :
  fsEmpty "/nonexistent/path" = LstatErr ErrNotExist
  /\ scanDirectories fsEmpty "/nonexistent/path" 5 true = ([], None)
  /\ scanDirectoriesAsync fsEmpty "/nonexistent/path" 5 true 10
     = Some [mkDirBatch [] true None].
Proof. vm_compute. repeat split; reflexivity. Qed.

(** ** Batching against the synchronous walker *)

Lemma allDirectories_snoc stream b :
  allDirectories (stream ++ [b]) = (allDirectories stream ++ Directories b)%list.
Proof.
  unfold allDirectories. rewrite map_app, concat_app. simpl.
  rewrite app_nil_r. reflexivity.
Qed.

Lemma in_allDirectories stream p :
  In p (allDirectories stream) <->
  exists b, In b stream /\ In p (Directories b).
Proof.
  unfold allDirectories. rewrite in_concat. split.
  - intros [l [Hl Hp]]. apply in_map_iff in Hl.
    destruct Hl as [b [<- Hb]]. exists b. auto.
  - intros [b [Hb Hp]]. exists (Directories b). split; [|exact Hp].
    apply in_map, Hb.
Qed.

Section Uncancelled.
Variable ctx : Context.
Variable config : ScanConfig.
Hypothesis never : cancelAt ctx = None.

Lemma visit_sameDirectories path d err dirs st :
  sameDirectories dirs st -> (d = None -> err <> None) ->
  fst (scanVisit (Root config) (MaxDepth config) (UseIgnorePatterns config)
                 path d err dirs)
  = fst (contextVisit ctx (emitVisit ctx config) path d err st)
  /\ sameDirectories
       (snd (scanVisit (Root config) (MaxDepth config)
                       (UseIgnorePatterns config) path d err dirs))
       (snd (contextVisit ctx (emitVisit ctx config) path d err st)).
Proof.
  intros Hs Hd.
  unfold contextVisit, emitVisit, scanVisit, pollDone, tick. simpl.
  rewrite !(ctxDone_never ctx _ never).
  destruct err as [re|]; [split; [reflexivity|exact Hs]|].
  destruct d as [d|]; [|exfalso; now apply Hd].
  destruct (negb (IsDir d)); [split; [reflexivity|exact Hs]|].
  destruct (String.eqb path (Root config));
    [split; [reflexivity|exact Hs]|].
  destruct (negb (isWithinDepth path (Root config) (MaxDepth config)));
    [split; [reflexivity|exact Hs]|].
  destruct (UseIgnorePatterns config && shouldIgnore (Name d));
    [split; [reflexivity|exact Hs]|].
  unfold appendAndFlush, trySend, tick, sameDirectories in *. simpl.
  destruct (currentBatchSize st <=? len (batch st ++ [path]))%Z; simpl.
  - rewrite !(ctxDone_never ctx _ never). simpl.
    split; [reflexivity|].
    rewrite allDirectories_snoc, app_nil_r. simpl.
    rewrite Hs, app_assoc. reflexivity.
  - split; [reflexivity|]. rewrite Hs, app_assoc. reflexivity.
Qed.

Lemma emitter_all_directories fs :
  (0 <= InitialBatchSize config)%Z ->
  exists stream,
    scanWithConfigCtx ctx fs config = Some stream
    /\ allDirectories stream
       = fst (scanDirectories fs (Root config) (MaxDepth config)
                              (UseIgnorePatterns config)).
Proof.
  intro Hb. unfold scanWithConfigCtx, emitter, scanDirectories.
  destruct (InitialBatchSize config <? 0)%Z eqn:E;
    [apply Z.ltb_lt in E; lia|].
  unfold walkDirContext.
  pose proof (@WalkDir_sim _ _ sameDirectories
                (scanVisit (Root config) (MaxDepth config)
                           (UseIgnorePatterns config))
                (contextVisit ctx (emitVisit ctx config))
                visit_sameDirectories fs (Root config) []
                (mkEmitState [] (InitialBatchSize config) 0 0 [])
                eq_refl) as [He Hr].
  destruct (WalkDir (scanVisit _ _ _) fs (Root config) []) as [e dirs].
  destruct (WalkDir (contextVisit _ _) fs (Root config) _) as [e' st].
  simpl in He, Hr. subst e'. unfold sameDirectories in Hr.
  eexists. split; [reflexivity|]. simpl.
  unfold finish, pollDone, trySend, tick. simpl.
  rewrite !(ctxDone_never ctx _ never). simpl.
  destruct (0 <? len (batch st))%Z eqn:E0; simpl.
  - rewrite allDirectories_snoc. simpl. symmetry. exact Hr.
  - assert (Hnil : batch st = []).
    { apply Z.ltb_ge in E0. unfold len in E0.
      destruct (batch st); [reflexivity|simpl in E0; lia]. }
    rewrite Hnil, app_nil_r in Hr.
    destruct e; simpl; rewrite allDirectories_snoc; simpl;
      rewrite ?Hnil, app_nil_r; symmetry; exact Hr.
Qed.
End Uncancelled.

(** C2: with ignore patterns enabled and no cancellation, the directories
    of all batches of [scanDirectoriesAsync], taken in order, are exactly
    the sequence returned by [scanDirectories] on the same root and depth;
    so a path is returned by the walker iff some batch carries it, and
    batching neither loses nor duplicates an entry. *)
Theorem async_batches_equal_sync fs root maxDepth batchSize :
  (0 <= batchSize)%Z ->
  exists stream,
    scanDirectoriesAsync fs root maxDepth true batchSize = Some stream
    /\ allDirectories stream = fst (scanDirectories fs root maxDepth true)
    /\ forall p,
         In p (fst (scanDirectories fs root maxDepth true)) <->
         exists b, In b stream /\ In p (Directories b).
Proof.
  intro Hb.
  destruct (@emitter_all_directories Background
              (asyncConfig root maxDepth true batchSize) eq_refl fs Hb)
    as [stream [Hs Ha]].
  exists stream. split; [exact Hs|]. split; [exact Ha|].
  intro p. simpl in Ha. rewrite <- Ha. apply in_allDirectories.
Qed.

Lemma async_batches_equal_sync_witness :
  (0 <= 2)%Z
  /\ exists stream,
       scanDirectoriesAsync fsAsyncTest "/tmp/t" 3 true 2 = Some stream
       /\ allDirectories stream
          = fst (scanDirectories fsAsyncTest "/tmp/t" 3 true)
       /\ forall p,
            In p (fst (scanDirectories fsAsyncTest "/tmp/t" 3 true)) <->
            exists b, In b stream /\ In p (Directories b).
Proof.
  split; [lia|].
  apply (@async_batches_equal_sync fsAsyncTest "/tmp/t" 3 2). lia.
Defined.

(** ** The two-phase orchestrator *)

Lemma relayPlain_prefix ctx ins :
  forall t, exists k, relayPlain ctx t ins = firstn k ins.
Proof.
  induction ins as [|b rest IH]; intro t; simpl.
  - exists 0. reflexivity.
  - destruct (delivered ctx t); [|exists 0; reflexivity].
    destruct (IH (Datatypes.S t)) as [k Hk].
    exists (Datatypes.S k). simpl. rewrite Hk. reflexivity.
Qed.

Lemma relayPhase1_relays ctx ins :
  forall t,
    fst (relayPhase1 ctx t ins)
    = map phase1Batch
          (firstn (List.length (fst (relayPhase1 ctx t ins))) ins).
Proof.
  induction ins as [|b rest IH]; intro t; simpl; [reflexivity|].
  destruct (delivered ctx t); [|reflexivity].
  destruct (Err b); [reflexivity|].
  specialize (IH (Datatypes.S t)).
  destruct (relayPhase1 ctx (Datatypes.S t) rest) as [outs r].
  simpl in *. rewrite <- IH. reflexivity.
Qed.

Lemma relayPhase1_notDone ctx ins :
  forall t, Forall (fun b => Done b = false) (fst (relayPhase1 ctx t ins)).
Proof.
  induction ins as [|b rest IH]; intro t; simpl; [constructor|].
  destruct (delivered ctx t); [|constructor].
  destruct (Err b); [repeat constructor|].
  specialize (IH (Datatypes.S t)).
  destruct (relayPhase1 ctx (Datatypes.S t) rest) as [outs r].
  constructor; [reflexivity|exact IH].
Qed.

(** A relayed batch that carries an error ends the phase-1 loop by a
    return. *)
Lemma relayPhase1_error ctx ins :
  forall t,
    (exists b, In b (fst (relayPhase1 ctx t ins)) /\ Err b <> None) ->
    snd (relayPhase1 ctx t ins) = None.
Proof.
  induction ins as [|b rest IH]; intros t [x [Hin Hx]]; simpl in *;
    [contradiction|].
  destruct (delivered ctx t); [|reflexivity].
  destruct (Err b) eqn:E; [reflexivity|].
  specialize (IH (Datatypes.S t)).
  destruct (relayPhase1 ctx (Datatypes.S t) rest) as [outs r].
  simpl in *. destruct Hin as [<-|Hin].
  - simpl in Hx. rewrite E in Hx. contradiction.
  - apply IH. exists x. auto.
Qed.

Lemma frame_map_phase1Batch ins :
  Forall2 (fun o i => Done o = false
                      /\ Directories o = Directories i /\ Err o = Err i)
          (map phase1Batch ins) ins.
Proof.
  induction ins as [|b rest IH]; simpl; constructor; auto.
Qed.

(** C9: every batch relayed from phase 1 has its done flag false and the
    directories and error of the inner phase-1 batch; the outward stream is
    these relayed batches followed by batches of phase 2. *)
Theorem phase1_relay_frame sch fs cwd startPath maxDepth ig batchSize
        phase1 out :
  scanDirectoriesAsyncCtx (emit1 sch) fs cwd maxDepth ig batchSize
  = Some phase1 ->
  scanTwoPhasesAsyncCtx sch fs (Some cwd) startPath maxDepth ig batchSize
  = Some out ->
  exists n rest,
    out = (map phase1Batch (firstn n phase1) ++ rest)%list
    /\ Forall2 (fun o i => Done o = false
                           /\ Directories o = Directories i
                           /\ Err o = Err i)
               (map phase1Batch (firstn n phase1)) (firstn n phase1)
    /\ (rest = []
        \/ exists phase2 k,
             scanDirectoriesAsyncCtxExcluding (emit2 sch) fs "/" maxDepth ig
                                              batchSize cwd = Some phase2
             /\ rest = firstn k phase2).
Proof.
  intros H1 H. unfold scanTwoPhasesAsyncCtx in H. rewrite H1 in H.
  pose proof (relayPhase1_relays (relay sch) phase1 0) as Hr.
  destruct (relayPhase1 (relay sch) 0 phase1) as [out1 [t|]]; simpl in Hr.
  - destruct (scanDirectoriesAsyncCtxExcluding _ _ _ _ _ _ _) as [phase2|]
      eqn:E2; [|discriminate].
    inversion H as [H']. clear H H'.
    exists (List.length out1), (relayPlain (relay sch) t phase2).
    split; [rewrite <- Hr; reflexivity|].
    split; [apply frame_map_phase1Batch|].
    right. destruct (relayPlain_prefix (relay sch) phase2 t) as [k Hk].
    exists phase2, k. auto.
  - inversion H as [H']. subst out1.
    exists (List.length out), [].
    split; [rewrite app_nil_r; exact Hr|].
    split; [apply frame_map_phase1Batch|]. left. reflexivity.
Qed.

Lemma phase1_relay_frame_witness :
  scanDirectoriesAsyncCtx Background fsSlash "/" 5 true 10
  = Some [mkDirBatch ["/a"] true None]
  /\ scanTwoPhasesAsyncCtx (mkSchedule Background Background Background)
       fsSlash (Some "/") "/" 5 true 10
     = Some [mkDirBatch ["/a"] false None; mkDirBatch ["/a"] true None]
  /\ exists n rest,
       [mkDirBatch ["/a"] false None; mkDirBatch ["/a"] true None]
       = (map phase1Batch (firstn n [mkDirBatch ["/a"] true None]) ++ rest)%list
       /\ Forall2 (fun o i => Done o = false
                              /\ Directories o = Directories i
                              /\ Err o = Err i)
                  (map phase1Batch (firstn n [mkDirBatch ["/a"] true None]))
                  (firstn n [mkDirBatch ["/a"] true None])
       /\ (rest = []
           \/ exists phase2 k,
                scanDirectoriesAsyncCtxExcluding Background fsSlash "/" 5 true
                                                 10 "/" = Some phase2
                /\ rest = firstn k phase2).
Proof.
  assert (H1 : scanDirectoriesAsyncCtx Background fsSlash "/" 5 true 10
               = Some [mkDirBatch ["/a"] true None])
    by (vm_compute; reflexivity).
  assert (H2 : scanTwoPhasesAsyncCtx
                 (mkSchedule Background Background Background)
                 fsSlash (Some "/") "/" 5 true 10
               = Some [mkDirBatch ["/a"] false None;
                       mkDirBatch ["/a"] true None])
    by (vm_compute; reflexivity).
  split; [exact H1|]. split; [exact H2|].
  exact (@phase1_relay_frame (mkSchedule Background Background Background)
           fsSlash "/" "/" 5 true 10 _ _ H1 H2).
Defined.

Lemma notTerminal_notDone l :
  Forall notTerminal l -> Forall (fun b => Done b = false) l.
Proof. apply Forall_impl. intros b [H _]. exact H. Qed.

Lemma Forall_prefix (A : Type) (P : A -> Prop) (l : list A) :
  Forall P l -> forall k, Forall P (firstn k l).
Proof.
  induction 1 as [|x l Hx _ IH]; intros [|k]; simpl; constructor; auto.
Qed.

(** A prefix of a stream that ends in at most one done batch does so
    too. *)
Lemma firstn_terminal flushed fin k :
  Forall (fun b => Done b = false) flushed ->
  (fin = [] \/ exists b, fin = [b] /\ Done b = true) ->
  exists pre fin',
    firstn k (flushed ++ fin) = (pre ++ fin')%list
    /\ Forall (fun b => Done b = false) pre
    /\ (fin' = []
        \/ exists b, fin' = [b] /\ Done b = true /\ In b (flushed ++ fin)).
Proof.
  intros Hf Hfin. rewrite firstn_app.
  exists (firstn k flushed), (firstn (k - List.length flushed) fin).
  split; [reflexivity|]. split; [apply Forall_prefix, Hf|].
  destruct Hfin as [->|[b [-> Hb]]].
  - left. apply firstn_nil.
  - destruct (k - List.length flushed) as [|n]; [left; reflexivity|].
    right. exists b. simpl. rewrite firstn_nil.
    split; [reflexivity|]. split; [exact Hb|].
    apply in_or_app. right. left. reflexivity.
Qed.

Lemma relayPlain_terminal ctx rctx fs config excludePath stream t :
  scanWithConfigCtxExcluding ctx fs config excludePath = Some stream ->
  exists pre fin,
    relayPlain rctx t stream = (pre ++ fin)%list
    /\ Forall (fun b => Done b = false) pre
    /\ (fin = [] \/ exists b, fin = [b] /\ Done b = true /\ In b stream).
Proof.
  intro H. destruct (emitter_shape _ _ _ _ H) as [flushed [Hf Hs]].
  apply notTerminal_notDone in Hf.
  destruct (relayPlain_prefix rctx stream t) as [k ->].
  destruct Hs as [[-> _]|[dirs [t' ->]]].
  - exists (firstn k flushed), []. rewrite app_nil_r.
    split; [reflexivity|]. split; [apply Forall_prefix, Hf|].
    left. reflexivity.
  - apply firstn_terminal; [exact Hf|].
    right. eexists. split; [reflexivity|reflexivity].
Qed.

(** C4, as amended: on every execution path the outward stream has at most
    one batch with [done = true]; it is then the last batch and is a batch
    of phase 2, or of the single-phase fallback.  If a batch relayed from
    phase 1 carries an error, the orchestrator stops without running
    phase 2: the outward stream is the relayed phase-1 batches, the batch
    relayed for the error has [done = false] like the others, and the
    stream has no batch with [done = true]. *)
Theorem two_phase_done_batch sch fs getwd startPath maxDepth ig batchSize out :
  scanTwoPhasesAsyncCtx sch fs getwd startPath maxDepth ig batchSize
  = Some out ->
  (exists pre fin,
      out = (pre ++ fin)%list
      /\ Forall (fun b => Done b = false) pre
      /\ (fin = []
          \/ exists b s,
               fin = [b] /\ Done b = true /\ In b s
               /\ ((getwd = None
                    /\ scanDirectoriesAsyncCtx (emit1 sch) fs startPath
                         maxDepth ig batchSize = Some s)
                   \/ exists cwd,
                        getwd = Some cwd
                        /\ scanDirectoriesAsyncCtxExcluding (emit2 sch) fs "/"
                             maxDepth ig batchSize cwd = Some s)))
  /\ doneCount out <= 1
  /\ forall cwd phase1,
       getwd = Some cwd ->
       scanDirectoriesAsyncCtx (emit1 sch) fs cwd maxDepth ig batchSize
       = Some phase1 ->
       (exists b, In b (fst (relayPhase1 (relay sch) 0 phase1))
                  /\ Err b <> None) ->
       out = fst (relayPhase1 (relay sch) 0 phase1)
       /\ Forall (fun b => Done b = false) out
       /\ doneCount out = 0.
Proof.
  intro H.
  assert (Hzero : forall l, Forall (fun b => Done b = false) l ->
                            doneCount l = 0).
  { unfold doneCount. induction 1 as [|b l Hb _ IH]; [reflexivity|].
    simpl. rewrite Hb. exact IH. }
  assert (Hshape :
    exists pre fin,
      out = (pre ++ fin)%list
      /\ Forall (fun b => Done b = false) pre
      /\ (fin = []
          \/ exists b s,
               fin = [b] /\ Done b = true /\ In b s
               /\ ((getwd = None
                    /\ scanDirectoriesAsyncCtx (emit1 sch) fs startPath
                         maxDepth ig batchSize = Some s)
                   \/ exists cwd,
                        getwd = Some cwd
                        /\ scanDirectoriesAsyncCtxExcluding (emit2 sch) fs "/"
                             maxDepth ig batchSize cwd = Some s))).
  { unfold scanTwoPhasesAsyncCtx in H. destruct getwd as [cwd|].
    - destruct (scanDirectoriesAsyncCtx (emit1 sch) fs cwd _ _ _)
        as [phase1|]; [|discriminate].
      pose proof (relayPhase1_notDone (relay sch) phase1 0) as Hn.
      destruct (relayPhase1 (relay sch) 0 phase1) as [out1 [t|]];
        simpl in Hn.
      + destruct (scanDirectoriesAsyncCtxExcluding _ _ _ _ _ _ _)
          as [phase2|] eqn:E2; [|discriminate].
        inversion H as [H']. clear H H'.
        destruct (@relayPlain_terminal _ (relay sch) _ _ _ _ t E2)
          as [pre [fin [E [Hp Hfin]]]].
        exists (out1 ++ pre)%list, fin. rewrite E, app_assoc.
        split; [reflexivity|]. split; [apply Forall_app; auto|].
        destruct Hfin as [->|[b [-> [Hb Hin]]]]; [left; reflexivity|].
        right. exists b, phase2. repeat split; auto.
        right. exists cwd. auto.
      + inversion H as [H']. subst out1. exists out, [].
        rewrite app_nil_r. auto.
    - destruct (scanDirectoriesAsyncCtx (emit1 sch) fs startPath _ _ _)
        as [single|] eqn:E1; [|discriminate].
      inversion H as [H']. clear H H'.
      unfold scanDirectoriesAsyncCtx in E1.
      rewrite scanWithConfigCtx_excluding in E1.
      destruct (@relayPlain_terminal _ (relay sch) _ _ _ _ 0 E1)
        as [pre [fin [E [Hp Hfin]]]].
      exists pre, fin. split; [exact E|]. split; [exact Hp|].
      destruct Hfin as [->|[b [-> [Hb Hin]]]]; [left; reflexivity|].
      right. exists b, single. repeat split; auto. }
  split; [exact Hshape|]. split.
  - destruct Hshape as [pre [fin [-> [Hp Hfin]]]].
    rewrite doneCount_app, (Hzero _ Hp).
    destruct Hfin as [->|[b [s [-> _]]]]; unfold doneCount; simpl;
      [lia|destruct (Done b); simpl; lia].
  - intros cwd phase1 -> H1 Herr.
    unfold scanTwoPhasesAsyncCtx in H. rewrite H1 in H.
    pose proof (relayPhase1_error _ _ _ Herr) as Hr.
    pose proof (relayPhase1_notDone (relay sch) phase1 0) as Hn.
    destruct (relayPhase1 (relay sch) 0 phase1) as [out1 r].
    simpl in *. subst r. inversion H as [H']. subst out1.
    split; [reflexivity|]. split; [exact Hn|apply Hzero, Hn].
Qed.

Lemma two_phase_done_batch_witness :
  scanTwoPhasesAsyncCtx (mkSchedule Background Background Background)
    fsSlash (Some "/") "/" 5 true 10
  = Some [mkDirBatch ["/a"] false None; mkDirBatch ["/a"] true None]
  /\ doneCount [mkDirBatch ["/a"] false None; mkDirBatch ["/a"] true None]
     <= 1.
Proof.
  assert (H : scanTwoPhasesAsyncCtx
                (mkSchedule Background Background Background)
                fsSlash (Some "/") "/" 5 true 10
              = Some [mkDirBatch ["/a"] false None;
                      mkDirBatch ["/a"] true None])
    by (vm_compute; reflexivity).
  split; [exact H|].
  exact (proj1 (proj2 (two_phase_done_batch _ _ _ _ _ _ _ H))).
Defined.

(** C4 as stated fails: when phase 1 ends in the cancellation error, the
    batch relayed for it has [done = false], and the outward stream ends
    after it without any batch with [done = true]. *)
Lemma phase1_error_batch_not_terminal :
  scanDirectoriesAsyncCtx cancelledSending fsSlash "/" 5 true 10
  = Some [mkDirBatch [] true (Some Canceled)]
  /\ scanTwoPhasesAsyncCtx
       (mkSchedule cancelledSending cancelledSending cancelledSending)
       fsSlash (Some "/") "/" 5 true 10
     = Some [mkDirBatch [] false (Some Canceled)]
  /\ doneCount [mkDirBatch [] false (Some Canceled)] = 0.
Proof. vm_compute. repeat split; reflexivity. Qed.

(** ** Exclusion *)

(** C5 fails on the code when the working directory is the root
    directory: [excludePath + "/"] is then ["//"], which no walked path
    has as a prefix, and the path [/] itself is passed over as the scan
    root before the exclusion is tested; phase 2 emits again what phase 1
    emitted. *)
Theorem phase2_repeats_phase1_at_root :
  scanDirectoriesAsyncCtx Background fsSlash "/" 5 true 10
  = Some [mkDirBatch ["/a"] true None]
  /\ scanDirectoriesAsyncCtxExcluding Background fsSlash "/" 5 true 10 "/"
     = Some [mkDirBatch ["/a"] true None]
  /\ excluded "/" "/a" = false
  /\ scanTwoPhasesAsyncCtx (mkSchedule Background Background Background)
       fsSlash (Some "/") "/" 5 true 10
     = Some [mkDirBatch ["/a"] false None; mkDirBatch ["/a"] true None].
Proof. vm_compute. repeat split; reflexivity. Qed.

(** ** Adaptive batch sizing *)

Lemma wrap64_small z : (- 2 ^ 63 <= z < 2 ^ 63)%Z -> wrap64 z = z.
Proof.
  intro H. unfold wrap64. rewrite Z.mod_small; lia.
Qed.

Lemma min_Zmin a b : min a b = Z.min a b.
Proof.
  unfold min. destruct (a <? b)%Z eqn:E.
  - apply Z.ltb_lt in E. lia.
  - apply Z.ltb_ge in E. lia.
Qed.

Lemma entryCount_Dir name readErr entries :
  entryCount (Dir name readErr entries)
  = Datatypes.S (list_sum (map entryCount entries)).
Proof.
  simpl. f_equal. induction entries as [|x l IH]; simpl; [reflexivity|].
  rewrite IH. reflexivity.
Qed.

(** A measure that a call of the callback raises by at most one, and not
    at all when it reports an error, grows over a walk by at most the
    number of entries walked. *)
Section Budget.
Variable S : Type.
Variable fn : WalkDirFunc S.
Variable m : S -> nat.
Hypothesis m_call :
  forall path d err s,
    m (snd (fn path d err s))
    <= m s + match err with None => 1 | Some _ => 0 end.

Lemma walkEntries_budget path entries :
  Forall (fun n => forall path s,
            m (snd (walkDir fn path n s)) <= m s + entryCount n) entries ->
  forall s,
    m (snd (walkEntries fn path entries s))
    <= m s + list_sum (map entryCount entries).
Proof.
  induction 1 as [|d1 rest H1 _ IH]; intro s; simpl; [lia|].
  specialize (H1 (Filepath.Join path (Name (entryOf d1))) s).
  destruct (walkDir fn _ d1 s) as [[e|] s']; simpl in *.
  - destruct (error_eqb e SkipDir); simpl; lia.
  - specialize (IH s'). lia.
Qed.

Lemma walkDir_budget n :
  forall path s, m (snd (walkDir fn path n s)) <= m s + entryCount n.
Proof.
  induction n as [name|name readErr entries IH] using node_ind;
    intros path s.
  - rewrite walkDir_File.
    pose proof (m_call path (Some (mkDirEntry name false)) None s) as H.
    destruct (fn path _ None s) as [[e|] s1]; simpl in *; lia.
  - rewrite walkDir_Dir, entryCount_Dir. cbv zeta.
    pose proof (m_call path (Some (mkDirEntry name true)) None s) as H.
    destruct (fn path _ None s) as [[e|] s1]; simpl in *; [lia|].
    destruct readErr as [re|].
    + pose proof (m_call path (Some (mkDirEntry name true)) (Some re) s1)
        as H2.
      destruct (fn path _ (Some re) s1) as [[e|] s2]; simpl in *; [lia|].
      pose proof (walkEntries_budget path IH s2). lia.
    + pose proof (walkEntries_budget path IH s1). lia.
Qed.

Lemma WalkDir_budget fs root s :
  m (snd (WalkDir fn fs root s)) <= m s + fsEntryCount fs root.
Proof.
  unfold WalkDir, fsEntryCount. destruct (fs root) as [e|n].
  - pose proof (m_call root None (Some e) s) as H.
    destruct (fn root None (Some e) s) as [[e'|] s']; simpl in *.
    + destruct (error_eqb e' SkipDir || error_eqb e' SkipAll); simpl; lia.
    + lia.
  - pose proof (walkDir_budget n root s) as H.
    destruct (walkDir fn root n s) as [[e'|] s']; simpl in *.
    + destruct (error_eqb e' SkipDir || error_eqb e' SkipAll); simpl; lia.
    + lia.
Qed.
End Budget.

Lemma thresholds_snoc cap flushed :
  forall cur count b,
    thresholds cap cur count (flushed ++ [b])
    = (thresholds cap cur count flushed
       ++ [thresholdAfter cap cur count flushed])%list.
Proof.
  induction flushed as [|a l IH]; intros cur count b; simpl; [reflexivity|].
  rewrite IH. reflexivity.
Qed.

Lemma thresholdAfter_snoc cap flushed :
  forall cur count b,
    thresholdAfter cap cur count (flushed ++ [b])
    = nextThreshold cap (thresholdAfter cap cur count flushed)
        (count + Z.of_nat (List.length (allDirectories (flushed ++ [b])))).
Proof.
  induction flushed as [|a l IH]; intros cur count b; simpl.
  - unfold allDirectories. simpl. rewrite app_nil_r. reflexivity.
  - rewrite IH. f_equal. unfold allDirectories. simpl.
    rewrite length_app. unfold len. lia.
Qed.

Section Sizing.
Variable ctx : Context.
Variable config : ScanConfig.
Variable excludePath : string.

Local Abbreviation visit :=
  (contextVisit ctx (emitVisitExcluding ctx config excludePath)).

(** What a call of the callback does to the variables of the emitter:
    nothing; or it appends the path, and then leaves it buffered, or
    fails to deliver the full buffer, or flushes it. *)
Lemma visit_cases path d err st :
  (d = None -> err <> None) ->
  let e := fst (visit path d err st) in
  let st' := snd (visit path d err st) in
  (batch st' = batch st /\ ch st' = ch st
   /\ currentBatchSize st' = currentBatchSize st
   /\ dirCount st' = dirCount st)
  \/ (err = None
      /\ batch st' = (batch st ++ [path])%list /\ ch st' = ch st
      /\ currentBatchSize st' = currentBatchSize st
      /\ dirCount st' = wrap64 (dirCount st + 1)
      /\ ((e = None /\ (len (batch st') < currentBatchSize st)%Z)
          \/ e = Some Canceled))
  \/ (err = None /\ e = None
      /\ batch st' = []
      /\ ch st' = (ch st ++ [mkDirBatch (batch st ++ [path]) false None])%list
      /\ dirCount st' = wrap64 (dirCount st + 1)
      /\ (currentBatchSize st <= len (batch st ++ [path]))%Z
      /\ currentBatchSize st'
         = if (500 <? dirCount st')%Z
              && (currentBatchSize st <? MaxBatchSize config)%Z
           then min (wrap64 (currentBatchSize st * 2)) (MaxBatchSize config)
           else currentBatchSize st).
Proof.
  intro Hd. unfold contextVisit, pollDone, tick. simpl.
  destruct (ctxDone ctx (clock st)); [left; auto|].
  unfold emitVisitExcluding, pollDone, tick. simpl.
  destruct (ctxDone ctx (Datatypes.S (clock st))); [left; auto|].
  destruct err as [re|]; [left; auto|].
  destruct d as [d|]; [|exfalso; now apply Hd].
  destruct (negb (IsDir d)); [left; auto|].
  destruct (String.eqb path (Root config)); [left; auto|].
  destruct (excluded excludePath path); [left; auto|].
  destruct (negb (isWithinDepth path (Root config) (MaxDepth config)));
    [left; auto|].
  destruct (UseIgnorePatterns config && shouldIgnore (Name d));
    [left; auto|].
  unfold appendAndFlush, trySend, tick. simpl.
  destruct (currentBatchSize st <=? len (batch st ++ [path]))%Z eqn:E;
    simpl.
  - destruct (ctxDone ctx (Datatypes.S (Datatypes.S (clock st)))
              && negb (sendWins ctx
                         (Datatypes.S (Datatypes.S (clock st))))); simpl.
    + right. left. repeat split; auto.
    + right. right. apply Z.leb_le in E. repeat split; auto.
  - right. left. apply Z.leb_gt in E. repeat split; auto.
Qed.

Lemma emitted_snoc st b :
  List.length (allDirectories (ch st ++ [b]))
  = List.length (allDirectories (ch st)) + List.length (Directories b).
Proof. rewrite allDirectories_snoc, length_app. reflexivity. Qed.

Lemma visit_emitted path d err st :
  (d = None -> err <> None) ->
  emitted st <= emitted (snd (visit path d err st))
  /\ emitted (snd (visit path d err st))
     <= emitted st + match err with None => 1 | Some _ => 0 end.
Proof.
  intro Hd. pose proof (@visit_cases path d err st Hd) as H.
  cbv zeta in H. unfold emitted.
  destruct H as [[Hb [Hc _]]|[[He [Hb [Hc _]]]|[He [_ [Hb [Hc _]]]]]];
    rewrite Hb, Hc.
  - destruct err; lia.
  - subst err. rewrite length_app. simpl. lia.
  - subst err. rewrite emitted_snoc. simpl. rewrite length_app. simpl. lia.
Qed.

Lemma visit_budget path d err st :
  emitted (snd (visit path d err st))
  <= emitted st + match err with None => 1 | Some _ => 0 end.
Proof.
  destruct d as [d|].
  - apply visit_emitted. discriminate.
  - destruct err as [re|]; [apply visit_emitted; discriminate|].
    unfold contextVisit, emitVisitExcluding, pollDone, tick. simpl.
    destruct (ctxDone ctx (clock st)); simpl; [unfold emitted; simpl; lia|].
    destruct (ctxDone ctx (Datatypes.S (clock st))); simpl;
      unfold emitted; simpl; lia.
Qed.

Hypothesis sizes : (0 < InitialBatchSize config <= MaxBatchSize config)%Z.

Lemma sizedState_flushed st : sizedState config st ->
                              flushedBySize config (ch st).
Proof. intros [H _]. exact H. Qed.

Lemma sizedState_buffer st : sizedState config st -> sizedBuffer config st.
Proof.
  intros [H [Hcur [_ [_ Hlen]]]]. split; [exact H|]. rewrite <- Hcur. lia.
Qed.

Lemma visit_sized path d err st :
  sized config None st -> (d = None -> err <> None) ->
  sized config (fst (visit path d err st)) (snd (visit path d err st)).
Proof.
  intros Hs Hd Hbound.
  destruct (@visit_emitted path d err st Hd) as [Hmono _].
  assert (Hst : sizedState config st) by (apply Hs; lia).
  clear Hs. pose proof (@visit_cases path d err st Hd) as H.
  cbv zeta in H.
  destruct Hst as [Hf [Hcur [Hpos [Hcount Hlen]]]].
  destruct H as [[Hb [Hc [Hs Hn]]]
                |[[He [Hb [Hc [Hs [Hn Hr]]]]]
                 |[He [Hr [Hb [Hc [Hn [Hfull Hs]]]]]]]].
  - assert (Hst' : sizedState config (snd (visit path d err st))).
    { unfold sizedState, emitted. rewrite Hb, Hc, Hs, Hn.
      split; [exact Hf|]. repeat split; auto; lia. }
    destruct (fst (visit path d err st)) as [[]|];
      try exact Hst'; apply sizedState_buffer, Hst'.
  - assert (He' : emitted (snd (visit path d err st))
                  = Datatypes.S (emitted st)).
    { unfold emitted. rewrite Hb, Hc, length_app. simpl. lia. }
    destruct Hr as [[Hr Hlt]|Hr]; rewrite Hr.
    + unfold sizedState. rewrite Hc, Hs, Hn.
      split; [exact Hf|]. repeat split; auto; try lia.
      rewrite He', Hcount. rewrite wrap64_small; lia.
    + simpl. unfold sizedBuffer. rewrite Hc, Hb. split; [exact Hf|].
      rewrite <- Hcur. unfold len in *. rewrite length_app. simpl. lia.
  - assert (He' : emitted (snd (visit path d err st))
                  = Datatypes.S (emitted st)).
    { unfold emitted. rewrite Hb, Hc, emitted_snoc. simpl.
      rewrite length_app. simpl. lia. }
    assert (Hn' : dirCount (snd (visit path d err st))
                  = Z.of_nat (Datatypes.S (emitted st))).
    { rewrite Hn, Hcount. rewrite wrap64_small; lia. }
    assert (Hlen1 : len (batch st ++ [path]) = currentBatchSize st).
    { unfold len in *. rewrite length_app in *. simpl in *. lia. }
    assert (Hsmall : (currentBatchSize st <= Z.of_nat (emitted st) + 1)%Z).
    { rewrite <- Hlen1. unfold len, emitted. rewrite length_app. simpl.
      lia. }
    assert (Hnext : currentBatchSize (snd (visit path d err st))
                    = nextThreshold (MaxBatchSize config)
                        (currentBatchSize st)
                        (Z.of_nat (Datatypes.S (emitted st)))).
    { rewrite Hs, Hn'. unfold nextThreshold.
      rewrite min_Zmin, wrap64_small by lia. reflexivity. }
    assert (Htot : (0 + Z.of_nat
                          (List.length
                             (allDirectories
                                (ch st ++ [mkDirBatch (batch st ++ [path])
                                                      false None]))))%Z
                   = Z.of_nat (Datatypes.S (emitted st))).
    { rewrite emitted_snoc. unfold emitted. simpl.
      rewrite length_app. simpl. lia. }
    assert (Hafter : thresholdAfter (MaxBatchSize config)
                       (InitialBatchSize config) 0
                       (ch (snd (visit path d err st)))
                     = currentBatchSize (snd (visit path d err st))).
    { rewrite Hc, thresholdAfter_snoc, Htot, <- Hcur. symmetry.
      exact Hnext. }
    assert (Hrange : (0 < currentBatchSize (snd (visit path d err st))
                      <= MaxBatchSize config)%Z).
    { rewrite Hnext. unfold nextThreshold.
      match goal with
      | |- context [if ?c then _ else _] => destruct c
      end; lia. }
    rewrite Hr. unfold sizedState, flushedBySize.
    rewrite Hafter. split; [split|].
    + rewrite Hc, thresholds_snoc. apply Forall2_app; [apply Hf|].
      constructor; [|constructor]. simpl. rewrite <- Hcur.
      split; [exact Hlen1|lia].
    + lia.
    + split; [reflexivity|]. split; [exact Hrange|].
      split; [rewrite Hn', He'; reflexivity|].
      rewrite Hb. unfold len. simpl. lia.
Qed.

Lemma walk_sized fs :
  sized config
    (fst (walkDirContext ctx fs (Root config)
            (emitVisitExcluding ctx config excludePath)
            (mkEmitState [] (InitialBatchSize config) 0 0 [])))
    (snd (walkDirContext ctx fs (Root config)
            (emitVisitExcluding ctx config excludePath)
            (mkEmitState [] (InitialBatchSize config) 0 0 []))).
Proof.
  unfold walkDirContext.
  apply (@WalkDir_post emitState visit (sized config)).
  - apply visit_sized.
  - intros s H. exact H.
  - intros s H. exact H.
  - intros _. unfold sizedState, flushedBySize, emitted, len. simpl.
    split; [split; [constructor|lia]|]. repeat split; auto; lia.
Qed.

Lemma emitter_sized fs stream :
  (Z.of_nat (fsEntryCount fs (Root config)) < 2 ^ 62)%Z ->
  scanWithConfigCtxExcluding ctx fs config excludePath = Some stream ->
  exists flushed fin,
    stream = (flushed ++ fin)%list
    /\ Forall notTerminal flushed
    /\ ((fin = [] /\ cancelAt ctx <> None)
        \/ exists b,
             fin = [b] /\ Done b = true
             /\ (len (Directories b)
                 <= thresholdAfter (MaxBatchSize config)
                                   (InitialBatchSize config) 0 flushed)%Z
             /\ (cancelAt ctx = None ->
                 (len (Directories b)
                  < thresholdAfter (MaxBatchSize config)
                                   (InitialBatchSize config) 0 flushed)%Z))
    /\ flushedBySize config flushed.
Proof.
  intros Hfs. unfold scanWithConfigCtxExcluding, emitter.
  destruct (InitialBatchSize config <? 0)%Z; [discriminate|].
  pose proof (walk_sized fs) as Hz.
  pose proof (@walk_flushedOnly ctx config excludePath fs (Root config)
                (mkEmitState [] (InitialBatchSize config) 0 0 [])
                (Forall_nil _)) as [Hn He].
  pose proof (WalkDir_no_skip visit fs (Root config)
                (mkEmitState [] (InitialBatchSize config) 0 0 []))
    as [Hs _].
  pose proof (@WalkDir_budget emitState visit emitted visit_budget
                fs (Root config)
                (mkEmitState [] (InitialBatchSize config) 0 0 [])) as Hb.
  fold (walkDirContext ctx fs (Root config)
          (emitVisitExcluding ctx config excludePath)
          (mkEmitState [] (InitialBatchSize config) 0 0 [])) in Hb, Hs.
  destruct (walkDirContext ctx fs (Root config) _ _) as [err st].
  simpl in Hz, Hn, He, Hs, Hb.
  change (emitted (mkEmitState [] (InitialBatchSize config) 0 0 []))
    with 0 in Hb.
  intro E. inversion E as [E']. clear E E'.
  assert (Hlt : (Z.of_nat (emitted st) < 2 ^ 62)%Z) by lia.
  specialize (Hz Hlt).
  assert (Hf : sizedBuffer config st).
  { destruct err as [[]|]; try exact Hz; apply sizedState_buffer, Hz. }
  assert (Hstrict : cancelAt ctx = None ->
                    (len (batch st)
                     < thresholdAfter (MaxBatchSize config)
                         (InitialBatchSize config) 0 (ch st))%Z).
  { intro Hnone.
    assert (err = None) as ->.
    { destruct He as [->|[->|[_ He]]]; [reflexivity|contradiction|].
      rewrite (ctxDone_never ctx _ Hnone) in He. discriminate. }
    destruct Hz as [_ [Hcur [_ [_ Hlen]]]]. rewrite <- Hcur. exact Hlen. }
  destruct Hf as [Hf Hle].
  exists (ch st).
  unfold finish, pollDone, trySend, tick. simpl.
  destruct (ctxDone ctx (Datatypes.S (clock st))
            && negb (sendWins ctx (Datatypes.S (clock st)))) eqn:E2.
  - exists []. rewrite app_nil_r.
    apply andb_true_iff in E2. destruct E2 as [E2 _].
    apply ctxDone_cancelled in E2.
    destruct ((0 <? len (batch st))%Z || _); simpl;
      (split; [reflexivity|]); (split; [exact Hn|]);
      (split; [left; split; [reflexivity|exact E2]|exact Hf]).
  - destruct ((0 <? len (batch st))%Z || _) eqn:Eb; simpl;
      eexists; (split; [reflexivity|]); (split; [exact Hn|]);
      (split; [right; eexists; split; [reflexivity|]|exact Hf]);
      simpl; (split; [reflexivity|]).
    + split; [exact Hle|exact Hstrict].
    + apply orb_false_iff in Eb. destruct Eb as [Eb _].
      apply Z.ltb_ge in Eb.
      assert (Hnil : batch st = []).
      { unfold len in Eb. destruct (batch st); [reflexivity|simpl in Eb; lia]. }
      rewrite Hnil in Hle, Hstrict. split; [exact Hle|exact Hstrict].
Qed.
End Sizing.

Lemma nextThreshold_rule cap cur count :
  ((count <= 500)%Z -> nextThreshold cap cur count = cur)
  /\ ((500 < count)%Z -> (cur < cap)%Z ->
      nextThreshold cap cur count = Z.min (cur * 2) cap)
  /\ ((cap <= cur)%Z -> nextThreshold cap cur count = cur).
Proof.
  unfold nextThreshold. repeat split; intros.
  - destruct (500 <? count)%Z eqn:E; [apply Z.ltb_lt in E; lia|reflexivity].
  - destruct (500 <? count)%Z eqn:E1; [|apply Z.ltb_ge in E1; lia].
    destruct (cur <? cap)%Z eqn:E2; [reflexivity|apply Z.ltb_ge in E2; lia].
  - destruct (cur <? cap)%Z eqn:E2; [apply Z.ltb_lt in E2; lia|].
    rewrite andb_false_r. reflexivity.
Qed.

(** C8: for a request whose initial batch size is positive and at most
    its maximum batch size, on a tree of fewer than 2^62 entries, the
    stream of an emitter is cut into batches by the adaptive rule.  The
    threshold starts at the initial batch size; after a flush that leaves
    the running count above 500 it is doubled, capped at [MaxBatchSize]
    (200 for the requests built by [scanDirectoriesAsyncCtx]); no threshold
    exceeds [MaxBatchSize].  A buffer is flushed exactly when it reaches
    the threshold: every non-final batch has exactly the length of the
    threshold in force when it was flushed, and the terminal batch, which
    holds what was left in the buffer, is shorter than the threshold in
    force after the last flush (at most as long when the context was
    cancelled: the send of a full buffer may lose against [ctx.Done()]).
    A stream without terminal batch is that of a cancelled context. *)
Theorem adaptive_batch_sizing ctx fs config excludePath stream :
  (0 < InitialBatchSize config <= MaxBatchSize config)%Z ->
  (Z.of_nat (fsEntryCount fs (Root config)) < 2 ^ 62)%Z ->
  scanWithConfigCtx ctx fs config = Some stream
  \/ scanWithConfigCtxExcluding ctx fs config excludePath = Some stream ->
  exists flushed fin,
    stream = (flushed ++ fin)%list
    /\ Forall notTerminal flushed
    /\ ((fin = [] /\ cancelAt ctx <> None)
        \/ exists b,
             fin = [b] /\ Done b = true
             /\ (len (Directories b)
                 <= thresholdAfter (MaxBatchSize config)
                                   (InitialBatchSize config) 0 flushed)%Z
             /\ (cancelAt ctx = None ->
                 (len (Directories b)
                  < thresholdAfter (MaxBatchSize config)
                                   (InitialBatchSize config) 0 flushed)%Z))
    /\ Forall2 (fun b t => len (Directories b) = t
                           /\ (t <= MaxBatchSize config)%Z)
               flushed
               (thresholds (MaxBatchSize config) (InitialBatchSize config) 0
                           flushed)
    /\ (thresholdAfter (MaxBatchSize config) (InitialBatchSize config) 0
                       flushed <= MaxBatchSize config)%Z
    /\ (forall b rest, flushed = b :: rest ->
          len (Directories b) = InitialBatchSize config)
    /\ (forall cur count,
          ((count <= 500)%Z ->
           nextThreshold (MaxBatchSize config) cur count = cur)
          /\ ((500 < count)%Z -> (cur < MaxBatchSize config)%Z ->
              nextThreshold (MaxBatchSize config) cur count
              = Z.min (cur * 2) (MaxBatchSize config)))
    /\ forall root maxDepth ig batchSize,
         MaxBatchSize (asyncConfig root maxDepth ig batchSize) = 200%Z
         /\ InitialBatchSize (asyncConfig root maxDepth ig batchSize)
            = batchSize.
Proof.
  intros Hsizes Hfs H.
  assert (H' : exists excl,
             scanWithConfigCtxExcluding ctx fs config excl = Some stream).
  { destruct H as [H|H]; [exists ""|exists excludePath]; exact H. }
  clear H. destruct H' as [excl H].
  destruct (@emitter_sized ctx config excl Hsizes fs stream Hfs H)
    as [flushed [fin [E [Hn [Hfin [Hf Ha]]]]]].
  exists flushed, fin.
  split; [exact E|]. split; [exact Hn|]. split; [exact Hfin|].
  split; [exact Hf|]. split; [exact Ha|]. split; [|split].
  - intros b rest ->. simpl in Hf. inversion Hf as [|? ? ? ? [Hb _] _].
    exact Hb.
  - intros cur count.
    destruct (nextThreshold_rule (MaxBatchSize config) cur count)
      as [H1 [H2 _]]. split; assumption.
  - intros. split; reflexivity.
Qed.

Lemma adaptive_batch_sizing_witness :
  (0 < 100 <= 200)%Z
  /\ (Z.of_nat (fsEntryCount fsWide "/w") < 2 ^ 62)%Z
  /\ scanWithConfigCtx Background fsWide (asyncConfig "/w" 3 true 100)
     = Some wideStream
  /\ map (fun b => len (Directories b)) wideStream
     = [100; 100; 100; 100; 100; 100; 200; 100]%Z
  /\ exists flushed fin,
       wideStream = (flushed ++ fin)%list
       /\ Forall notTerminal flushed
       /\ ((fin = [] /\ cancelAt Background <> None)
           \/ exists b,
                fin = [b] /\ Done b = true
                /\ (len (Directories b)
                    <= thresholdAfter 200 100 0 flushed)%Z
                /\ (cancelAt Background = None ->
                    (len (Directories b)
                     < thresholdAfter 200 100 0 flushed)%Z))
       /\ Forall2 (fun b t => len (Directories b) = t /\ (t <= 200)%Z)
                  flushed (thresholds 200 100 0 flushed).
Proof.
  assert (H1 : (0 < 100 <= 200)%Z) by lia.
  assert (H2 : (Z.of_nat (fsEntryCount fsWide "/w") < 2 ^ 62)%Z)
    by (vm_compute; reflexivity).
  assert (H3 : scanWithConfigCtx Background fsWide
                 (asyncConfig "/w" 3 true 100)
               = Some wideStream)
    by (vm_compute; reflexivity).
  split; [exact H1|]. split; [exact H2|]. split; [exact H3|].
  split; [vm_compute; reflexivity|].
  destruct (@adaptive_batch_sizing Background fsWide
              (asyncConfig "/w" 3 true 100) "" _ H1 H2 (or_introl H3))
    as [flushed [fin [E [Hn [Hfin [Hf _]]]]]].
  exists flushed, fin. auto.
Defined.

(** The exclusion-aware emitter never emits a path that its test
    excludes, whatever the ignore setting. *)
Lemma excluding_emits_no_excluded ctx fs config excludePath stream p :
  scanWithConfigCtxExcluding ctx fs config excludePath = Some stream ->
  In p (allDirectories stream) -> excluded excludePath p = false.
Proof.
  unfold scanWithConfigCtxExcluding, emitter.
  destruct (InitialBatchSize config <? 0)%Z; [discriminate|].
  pose (Q := fun (_ : option error) (st : emitState) =>
               Forall (fun p => excluded excludePath p = false)
                      (allDirectories (ch st) ++ batch st)).
  assert (H : Q (fst (walkDirContext ctx fs (Root config)
                        (emitVisitExcluding ctx config excludePath)
                        (mkEmitState [] (InitialBatchSize config) 0 0 [])))
                (snd (walkDirContext ctx fs (Root config)
                        (emitVisitExcluding ctx config excludePath)
                        (mkEmitState [] (InitialBatchSize config) 0 0 [])))).
  { unfold walkDirContext. apply WalkDir_post; unfold Q; auto;
      try (simpl; constructor; fail).
    intros path d err st Hst _.
    unfold contextVisit, pollDone, tick. simpl.
    destruct (ctxDone ctx (clock st)); [exact Hst|].
    unfold emitVisitExcluding, pollDone, tick. simpl.
    destruct (ctxDone ctx (Datatypes.S (clock st))); [exact Hst|].
    destruct err as [re|]; [exact Hst|].
    destruct d as [d|]; [|exact Hst].
    destruct (negb (IsDir d)); [exact Hst|].
    destruct (String.eqb path (Root config)); [exact Hst|].
    destruct (excluded excludePath path) eqn:Ex; [exact Hst|].
    destruct (negb (isWithinDepth path (Root config) (MaxDepth config)));
      [exact Hst|].
    destruct (UseIgnorePatterns config && shouldIgnore (Name d));
      [exact Hst|].
    assert (Hst' : Forall (fun p => excluded excludePath p = false)
                          (allDirectories (ch st) ++ batch st ++ [path])).
    { rewrite app_assoc. apply Forall_app. split; [exact Hst|].
      constructor; [exact Ex|constructor]. }
    unfold appendAndFlush, trySend, tick. simpl.
    destruct (currentBatchSize st <=? len (batch st ++ [path]))%Z; simpl;
      [|exact Hst'].
    destruct (ctxDone ctx _ && negb (sendWins ctx _)); simpl; [exact Hst'|].
    rewrite allDirectories_snoc, app_nil_r. exact Hst'. }
  destruct (walkDirContext ctx fs (Root config) _ _) as [err st].
  unfold Q in H. simpl in H. intro E. inversion E as [E']. clear E E'.
  intro Hin. rewrite Forall_forall in H. apply H.
  unfold finish, pollDone, trySend, tick in Hin. simpl in Hin.
  apply in_or_app.
  destruct ((0 <? len (batch st))%Z || _) eqn:Eb;
    destruct (ctxDone ctx _ && negb (sendWins ctx _)); simpl in Hin;
    try (left; exact Hin);
    rewrite allDirectories_snoc in Hin; simpl in Hin;
    apply in_app_or in Hin; destruct Hin as [Hin|Hin]; auto; contradiction.
Qed.

(** * Further properties *)

(** ** The shared state of the interface *)

Lemma string_length_app (a b : string) :
  String.length (a ++ b)%string = String.length a + String.length b.
Proof. induction a as [|c a IH]; simpl; [reflexivity|]. rewrite IH. reflexivity. Qed.

Lemma substring_app_left (a b : string) n :
  substring 0 (String.length a + n) (a ++ b)%string
  = (a ++ substring 0 n b)%string.
Proof.
  induction a as [|c a IH]; simpl; [reflexivity|]. rewrite IH. reflexivity.
Qed.

Lemma substring_0_length (s : string) n :
  n <= String.length s -> String.length (substring 0 n s) = n.
Proof.
  revert n. induction s as [|c s IH]; intros [|n] H; simpl in *;
    try reflexivity; try lia.
  rewrite IH; [reflexivity|lia].
Qed.

Lemma substring_0_0 (s : string) : substring 0 0 s = ""%string.
Proof. destruct s; reflexivity. Qed.

Lemma string_app_empty (a : string) : (a ++ "")%string = a.
Proof. induction a as [|c a IH]; simpl; [reflexivity|]. rewrite IH. reflexivity. Qed.

Lemma runeString_length r :
  1 <= String.length (runeString r)
  /\ (String.length (runeString r) = 1 <-> (0 <= r < 128)%Z).
Proof.
  unfold runeString.
  destruct ((r <? 0)%Z || (1114111 <? r)%Z
            || ((55296 <=? r)%Z && (r <=? 57343)%Z)) eqn:E.
  - simpl. split; [lia|]. split; [discriminate|]. intro H.
    apply orb_true_iff in E. destruct E as [E|E].
    + apply orb_true_iff in E. destruct E as [E|E];
        [apply Z.ltb_lt in E|apply Z.ltb_lt in E]; lia.
    + apply andb_true_iff in E. destruct E as [E _].
      apply Z.leb_le in E. lia.
  - apply orb_false_iff in E. destruct E as [E _].
    apply orb_false_iff in E. destruct E as [E _]. apply Z.ltb_ge in E.
    destruct (r <? 128)%Z eqn:E1.
    + apply Z.ltb_lt in E1. simpl. split; [lia|]. split; [lia|reflexivity].
    + apply Z.ltb_ge in E1.
      destruct (r <? 2048)%Z; [|destruct (r <? 65536)%Z]; simpl;
        (split; [lia|]); split; try discriminate; lia.
Qed.

Section TuiFacts.
Variable Find : string -> list string -> list Match.

Lemma fuzzyMatch_nil : fuzzyMatch Find "" [] = [].
Proof. reflexivity. Qed.

Lemma step_consistent a st :
  matches st = fuzzyMatch Find (query st) (directories st) ->
  matches (step Find a st)
  = fuzzyMatch Find (query (step Find a st)) (directories (step Find a st)).
Proof.
  intro H. destruct a as [[k r] height|b]; simpl.
  - unfold handleKeyEventState. simpl.
    destruct k; simpl; try exact H.
    + destruct (0 <? selected st)%Z; simpl; exact H.
    + destruct (selected st <? _)%Z; simpl; exact H.
    + destruct (0 <? String.length (query st)); simpl; [reflexivity|exact H].
    + destruct (0 <? String.length (query st)); simpl; [reflexivity|exact H].
    + reflexivity.
  - unfold applyBatch. destruct (0 <? len (Directories b))%Z; simpl;
      [reflexivity|exact H].
Qed.

(** X1: whatever key events and batches arrive, in whatever order, the
    match list of the state is the fuzzy match of its query against its
    directories. *)
Theorem matches_follow_query_and_directories (actions : list action) :
  matches (fold_left (fun st a => step Find a st) actions initialState)
  = fuzzyMatch Find
      (query (fold_left (fun st a => step Find a st) actions initialState))
      (directories
         (fold_left (fun st a => step Find a st) actions initialState)).
Proof.
  assert (H : forall st,
             matches st = fuzzyMatch Find (query st) (directories st) ->
             matches (fold_left (fun st a => step Find a st) actions st)
             = fuzzyMatch Find
                 (query (fold_left (fun st a => step Find a st) actions st))
                 (directories
                    (fold_left (fun st a => step Find a st) actions st))).
  { induction actions as [|a rest IH]; intros st Hst; simpl; [exact Hst|].
    apply IH, step_consistent, Hst. }
  apply H. reflexivity.
Qed.

(** X2: a key event leaves the selected row inside the displayed window
    and inside the match list, on a screen of more than five rows. *)
Theorem key_event_keeps_selection_visible event height st :
  (5 < height < 2 ^ 62)%Z ->
  (lenMatches (matches st) < 2 ^ 62)%Z ->
  selectionVisible height st ->
  selectionVisible height (snd (handleKeyEventState Find event height st)).
Proof.
  intros Hh Hl [[H0 H1] [H2 H3]].
  assert (Hlen : (0 <= lenMatches (matches st))%Z)
    by (unfold lenMatches; lia).
  assert (Hd : wrap64 (height - 5) = (height - 5)%Z)
    by (apply wrap64_small; lia).
  unfold handleKeyEventState. rewrite Hd.
  destruct event as [k r]. simpl.
  destruct k; simpl; try (repeat split; assumption).
  - destruct (0 <? selected st)%Z eqn:E; simpl;
      [|repeat split; assumption].
    apply Z.ltb_lt in E.
    rewrite wrap64_small by lia.
    destruct (selected st - 1 <? scrollOffset st)%Z eqn:E1;
      [apply Z.ltb_lt in E1|apply Z.ltb_ge in E1];
      unfold selectionVisible; simpl; repeat split; try lia;
      destruct H3 as [H3|H3]; lia.
  - rewrite (@wrap64_small (lenMatches (matches st) - 1)%Z) by lia.
    destruct (selected st <? lenMatches (matches st) - 1)%Z eqn:E; simpl;
      [|repeat split; assumption].
    apply Z.ltb_lt in E.
    rewrite (@wrap64_small (selected st + 1)%Z) by lia.
    rewrite (@wrap64_small (scrollOffset st + (height - 5))%Z) by lia.
    rewrite (@wrap64_small (selected st + 1 - (height - 5))%Z) by lia.
    rewrite (@wrap64_small (selected st + 1 - (height - 5) + 1)%Z) by lia.
    destruct (scrollOffset st + (height - 5) <=? selected st + 1)%Z eqn:E1;
      [apply Z.leb_le in E1|apply Z.leb_gt in E1];
      unfold selectionVisible; simpl; repeat split; try lia.
  - destruct (0 <? String.length (query st)); simpl;
      [|repeat split; assumption].
    unfold selectionVisible; simpl. repeat split; lia.
  - destruct (0 <? String.length (query st)); simpl;
      [|repeat split; assumption].
    unfold selectionVisible; simpl. repeat split; lia.
  - unfold selectionVisible; simpl. repeat split; lia.
Qed.

(** X3: typing a rune and then pressing backspace gives back the query
    exactly when the rune is encoded in one byte; backspace removes one
    byte, not one rune. *)
Theorem rune_then_backspace event height height' st :
  evKey event = KeyRune ->
  query (snd (handleKeyEventState Find (mkEventKey KeyBackspace 0) height'
                (snd (handleKeyEventState Find event height st))))
  = query st
  <-> (0 <= evRune event < 128)%Z.
Proof.
  intro Hk. destruct event as [k r]. simpl in Hk. subst k.
  unfold handleKeyEventState. simpl.
  rewrite string_length_app.
  destruct (runeString_length r) as [Hpos Hone].
  assert (E : (0 <? String.length (query st) + String.length (runeString r))
              = true) by (apply Nat.ltb_lt; lia).
  rewrite E. simpl.
  replace (String.length (query st) + String.length (runeString r) - 1)
    with (String.length (query st) + (String.length (runeString r) - 1))
    by lia.
  rewrite substring_app_left. split.
  - intro H. apply Hone.
    assert (Hl : String.length
                   (query st
                    ++ substring 0 (String.length (runeString r) - 1)
                                 (runeString r))%string
                 = String.length (query st)) by (rewrite H; reflexivity).
    rewrite string_length_app, substring_0_length in Hl; lia.
  - intro H. apply Hone in H. rewrite H. simpl.
    rewrite substring_0_0. apply string_app_empty.
Qed.

End TuiFacts.

Lemma key_event_keeps_selection_visible_witness :
  (5 < 24 < 2 ^ 62)%Z
  /\ (lenMatches (matches (mkUiState "" 0 0 ["/a"; "/b"]
                             (fuzzyMatch noMatch "" ["/a"; "/b"]) false))
      < 2 ^ 62)%Z
  /\ selectionVisible 24
       (mkUiState "" 0 0 ["/a"; "/b"] (fuzzyMatch noMatch "" ["/a"; "/b"]) false)
  /\ selectionVisible 24
       (snd (handleKeyEventState noMatch (mkEventKey KeyDown 0) 24
               (mkUiState "" 0 0 ["/a"; "/b"]
                          (fuzzyMatch noMatch "" ["/a"; "/b"]) false))).
Proof.
  assert (H1 : (5 < 24 < 2 ^ 62)%Z) by lia.
  assert (H2 : (lenMatches
                  (matches (mkUiState "" 0 0 ["/a"; "/b"]
                              (fuzzyMatch noMatch "" ["/a"; "/b"]) false))
                < 2 ^ 62)%Z) by (vm_compute; reflexivity).
  assert (H3 : selectionVisible 24
                 (mkUiState "" 0 0 ["/a"; "/b"]
                            (fuzzyMatch noMatch "" ["/a"; "/b"]) false)).
  { unfold selectionVisible, lenMatches. simpl. repeat split; lia. }
  split; [exact H1|]. split; [exact H2|]. split; [exact H3|].
  exact (@key_event_keeps_selection_visible noMatch (mkEventKey KeyDown 0) 24 _
           H1 H2 H3).
Defined.

Lemma rune_then_backspace_witness :
  evKey (mkEventKey KeyRune 233) = KeyRune
  /\ (query (snd (handleKeyEventState noMatch (mkEventKey KeyBackspace 0) 24
                    (snd (handleKeyEventState noMatch (mkEventKey KeyRune 233) 24
                            initialState))))
      = query initialState
      <-> (0 <= evRune (mkEventKey KeyRune 233) < 128)%Z).
Proof.
  split; [reflexivity|].
  exact (@rune_then_backspace noMatch (mkEventKey KeyRune 233) 24 24 initialState
           eq_refl).
Defined.

(** ** Display of a match *)

Lemma prefix_app (p rest : string) : String.prefix p (p ++ rest)%string = true.
Proof.
  induction p as [|c p IH]; simpl; [destruct rest; reflexivity|].
  destruct (ascii_dec c c) as [_|N]; [exact IH|contradiction].
Qed.

Lemma prefix_split (p s : string) :
  String.prefix p s = true -> exists rest, s = (p ++ rest)%string.
Proof.
  revert s. induction p as [|c p IH]; intros s H.
  - exists s. reflexivity.
  - destruct s as [|c' s]; simpl in H; [discriminate H|].
    destruct (ascii_dec c c') as [<-|_]; [|discriminate H].
    destruct (IH s H) as [rest ->]. exists rest. reflexivity.
Qed.

Lemma substring_drop (p rest : string) :
  substring (String.length p)
            (String.length (p ++ rest)%string - String.length p)
            (p ++ rest)%string
  = rest.
Proof.
  rewrite string_length_app.
  replace (String.length p + String.length rest - String.length p)
    with (String.length rest) by lia.
  induction p as [|c p IH]; simpl; [|exact IH].
  induction rest as [|c r IHr]; simpl; [reflexivity|].
  rewrite IHr. reflexivity.
Qed.

Lemma substring_all (s : string) : substring 0 (String.length s) s = s.
Proof.
  induction s as [|c s IH]; simpl; [reflexivity|]. rewrite IH. reflexivity.
Qed.

(** X4: [formatMatch] replaces a leading home directory by a tilde and
    leaves every other path as it is; the home directory is matched as a
    string prefix, so when it is unknown (the empty string) every path gets
    a tilde in front. *)
Theorem formatMatch_tilde userHomeDir m :
  (forall home rest,
      userHomeDir = Some home -> Str m = (home ++ rest)%string ->
      formatMatch userHomeDir m = ("~" ++ rest)%string)
  /\ (String.prefix (homeDir userHomeDir) (Str m) = false ->
      formatMatch userHomeDir m = Str m)
  /\ (userHomeDir = None ->
      formatMatch userHomeDir m = ("~" ++ Str m)%string)
  /\ (formatMatch userHomeDir m = Str m
      \/ Str m = (homeDir userHomeDir
                  ++ substring 1 (String.length (formatMatch userHomeDir m) - 1)
                               (formatMatch userHomeDir m))%string).
Proof.
  unfold formatMatch, TrimPrefix. split; [|split; [|split]].
  - intros home rest -> E. simpl. rewrite E, prefix_app, substring_drop.
    reflexivity.
  - intros ->. reflexivity.
  - intros ->. simpl.
    assert (H : String.prefix "" (Str m) = true)
      by (destruct (Str m); reflexivity).
    rewrite H, Nat.sub_0_r, substring_all. reflexivity.
  - destruct (String.prefix (homeDir userHomeDir) (Str m)) eqn:E;
      [|left; reflexivity].
    right. destruct (prefix_split _ _ E) as [rest Hr].
    rewrite Hr, substring_drop. simpl. rewrite Nat.sub_0_r, substring_all.
    reflexivity.
Qed.

(** ** The relay of batches into the shared state *)

Section RelayFacts.
Variable Find : string -> list string -> list Match.

Lemma applyBatch_directories b st :
  directories (applyBatch Find b st)
  = (directories st ++ Directories b)%list.
Proof.
  unfold applyBatch. destruct (0 <? len (Directories b))%Z eqn:E; simpl;
    [reflexivity|].
  apply Z.ltb_ge in E. unfold len in E.
  destruct (Directories b); [rewrite app_nil_r; reflexivity|simpl in E; lia].
Qed.

Lemma applyBatch_frame b st :
  query (applyBatch Find b st) = query st
  /\ selected (applyBatch Find b st) = selected st
  /\ scrollOffset (applyBatch Find b st) = scrollOffset st
  /\ scanComplete (applyBatch Find b st) = Done b.
Proof.
  unfold applyBatch. destruct (0 <? len (Directories b))%Z; simpl; auto.
Qed.

Lemma postError_cancelOnly b errorChan :
  cancelOnly b -> postError b errorChan = errorChan.
Proof.
  unfold postError. intros [->| ->]; reflexivity.
Qed.

Lemma relayBatches_prefix ctx stream :
  forall t st,
    exists k,
      directories (fst (relayBatches Find ctx t stream st))
      = (directories (fst st) ++ allDirectories (firstn k stream))%list
      /\ query (fst (relayBatches Find ctx t stream st)) = query (fst st)
      /\ selected (fst (relayBatches Find ctx t stream st))
         = selected (fst st)
      /\ scrollOffset (fst (relayBatches Find ctx t stream st))
         = scrollOffset (fst st)
      /\ (cancelAt ctx = None -> k = List.length stream).
Proof.
  induction stream as [|b rest IH]; intros t st; simpl.
  - exists 0. simpl. rewrite app_nil_r. auto.
  - unfold delivered. destruct (ctxDone ctx t) eqn:E; simpl.
    + destruct (sendWins ctx t); simpl.
      * destruct (IH (Datatypes.S t)
                     (applyBatch Find b (fst st), postError b (snd st)))
          as [k [Hd [Hq [Hs [Ho Hn]]]]].
        exists (Datatypes.S k). simpl in *.
        rewrite Hd, applyBatch_directories, <- app_assoc.
        destruct (applyBatch_frame b (fst st)) as [F1 [F2 [F3 _]]].
        repeat split; try congruence.
        intro Hc. rewrite (Hn Hc). reflexivity.
      * exists 0. simpl. rewrite app_nil_r. repeat split; auto.
        intro Hn. rewrite (ctxDone_never ctx t Hn) in E. discriminate.
    + destruct (IH (Datatypes.S t)
                   (applyBatch Find b (fst st), postError b (snd st)))
        as [k [Hd [Hq [Hs [Ho Hn]]]]].
      exists (Datatypes.S k). simpl in *.
      rewrite Hd, applyBatch_directories, <- app_assoc.
      destruct (applyBatch_frame b (fst st)) as [F1 [F2 [F3 _]]].
        repeat split; try congruence.
        intro Hc. rewrite (Hn Hc). reflexivity.
Qed.

Lemma relayBatches_errorChan ctx stream :
  Forall cancelOnly stream ->
  forall t st, snd (relayBatches Find ctx t stream st) = snd st.
Proof.
  induction 1 as [|b rest Hb _ IH]; intros t st; simpl; [reflexivity|].
  destruct (delivered ctx t); [|reflexivity].
  rewrite IH. simpl. apply postError_cancelOnly, Hb.
Qed.

Lemma firstScanError_not_canceled stream :
  firstScanError stream <> Some Canceled.
Proof.
  induction stream as [|b rest IH]; simpl; [discriminate|].
  destruct (Err b) as [e|]; [|exact IH].
  destruct (error_eqb e Canceled) eqn:E; [exact IH|].
  intro H. inversion H. subst e. discriminate E.
Qed.

Lemma firstScanError_In stream e :
  firstScanError stream = Some e ->
  exists b, In b stream /\ Err b = Some e.
Proof.
  induction stream as [|b rest IH]; simpl; [discriminate|].
  destruct (Err b) as [e'|] eqn:Eb.
  - destruct (error_eqb e' Canceled).
    + intro H. destruct (IH H) as [x [Hx He]]. exists x. auto.
    + intro H. inversion H. subst e'. exists b. auto.
  - intro H. destruct (IH H) as [x [Hx He]]. exists x. auto.
Qed.

Lemma firstScanError_cancelOnly stream :
  Forall cancelOnly stream -> firstScanError stream = None.
Proof.
  induction 1 as [|b rest [Hb|Hb] _ IH]; simpl; [reflexivity| |];
    rewrite Hb; exact IH.
Qed.

(** The relay goroutine receives a prefix of the stream; the error channel
    keeps what it held, or else takes the first error of that prefix that
    is not the cancellation error. *)
Lemma relayBatches_received ctx stream :
  forall t st,
    exists k,
      directories (fst (relayBatches Find ctx t stream st))
      = (directories (fst st) ++ allDirectories (firstn k stream))%list
      /\ snd (relayBatches Find ctx t stream st)
         = match snd st with
           | Some e => Some e
           | None => firstScanError (firstn k stream)
           end
      /\ (cancelAt ctx = None -> k = List.length stream).
Proof.
  induction stream as [|b rest IH]; intros t st; simpl.
  - exists 0. simpl. rewrite app_nil_r. destruct (snd st); auto.
  - assert (Hstep : exists k,
               directories
                 (fst (relayBatches Find ctx (Datatypes.S t) rest
                         (applyBatch Find b (fst st), postError b (snd st))))
               = (directories (fst st)
                  ++ allDirectories (firstn k (b :: rest)))%list
               /\ snd (relayBatches Find ctx (Datatypes.S t) rest
                         (applyBatch Find b (fst st), postError b (snd st)))
                  = match snd st with
                    | Some e => Some e
                    | None => firstScanError (firstn k (b :: rest))
                    end
               /\ (cancelAt ctx = None
                   -> k = Datatypes.S (List.length rest))).
    { destruct (IH (Datatypes.S t)
                   (applyBatch Find b (fst st), postError b (snd st)))
        as [k [Hd [He Hn]]].
      exists (Datatypes.S k). simpl in *.
      rewrite Hd, applyBatch_directories, <- app_assoc.
      split; [reflexivity|]. split; [|intro Hc; rewrite (Hn Hc); reflexivity].
      rewrite He. unfold postError.
      destruct (snd st) as [e0|]; destruct (Err b) as [e|];
        try reflexivity; destruct (error_eqb e Canceled); reflexivity. }
    unfold delivered. destruct (ctxDone ctx t) eqn:E; simpl;
      [destruct (sendWins ctx t); simpl|]; try exact Hstep.
    exists 0. simpl. rewrite app_nil_r.
    split; [reflexivity|]. split; [destruct (snd st); reflexivity|].
    intro Hn. rewrite (ctxDone_never ctx t Hn) in E. discriminate.
Qed.

Lemma relayBatches_all ctx stream :
  cancelAt ctx = None ->
  forall t st,
    relayBatches Find ctx t stream st
    = fold_left (fun s b => (applyBatch Find b (fst s), postError b (snd s)))
                stream st.
Proof.
  intro Hn. induction stream as [|b rest IH]; intros t st; simpl;
    [reflexivity|].
  unfold delivered. rewrite (ctxDone_never ctx t Hn). simpl. apply IH.
Qed.

Lemma fold_applyBatch_snoc stream b st :
  fold_left (fun s b => (applyBatch Find b (fst s), postError b (snd s)))
            (stream ++ [b]) st
  = (applyBatch Find b
       (fst (fold_left
               (fun s b => (applyBatch Find b (fst s), postError b (snd s)))
               stream st)),
     postError b
       (snd (fold_left
               (fun s b => (applyBatch Find b (fst s), postError b (snd s)))
               stream st))).
Proof. rewrite fold_left_app. reflexivity. Qed.
End RelayFacts.

(** ** Walks that are cut short *)

Lemma fatal_not_skipped e isDir : fatal (Some e) -> skipped isDir e = Some e.
Proof.
  intros [H _]. unfold skipped. rewrite H. reflexivity.
Qed.

(** A second callback that steps in lock-step with a first one until it
    returns an error that ends its walk: the first walk then goes on
    alone, and keeps the relation [A] to the state the second walk ended
    in. *)
Section WalkAbort.
Variables S1 S2 : Type.
Variables R A : S1 -> S2 -> Prop.
Variable fn1 : WalkDirFunc S1.
Variable fn2 : WalkDirFunc S2.
Hypothesis RA_call :
  forall path d err s1 s2,
    R s1 s2 -> (d = None -> err <> None) ->
    sameOrAborted R A (fn1 path d err s1) (fn2 path d err s2).
Hypothesis A_call :
  forall path d err s1 s2, A s1 s2 -> A (snd (fn1 path d err s1)) s2.

Lemma walkDir_keeps n path s1 s2 :
  A s1 s2 -> A (snd (walkDir fn1 path n s1)) s2.
Proof.
  intro H.
  apply (@walkDir_post S1 fn1 (fun _ s => A s s2)); auto.
Qed.

Lemma walkEntries_keeps path entries s1 s2 :
  A s1 s2 -> A (snd (walkEntries fn1 path entries s1)) s2.
Proof.
  intro H.
  apply (@walkEntries_post S1 fn1 (fun _ s => A s s2)); auto.
  apply Forall_forall. intros n _ p s Hs. apply walkDir_keeps, Hs.
Qed.

Lemma walkEntries_abort path entries :
  Forall (fun n => forall path s1 s2, R s1 s2 ->
            sameOrAborted R A (walkDir fn1 path n s1) (walkDir fn2 path n s2))
         entries ->
  forall s1 s2, R s1 s2 ->
    sameOrAborted R A (walkEntries fn1 path entries s1)
                  (walkEntries fn2 path entries s2).
Proof.
  induction 1 as [|d1 rest H1 _ IH]; intros s1 s2 Hs; simpl.
  - left. split; [reflexivity|exact Hs].
  - specialize (H1 (Filepath.Join path (Name (entryOf d1))) s1 s2 Hs).
    pose proof (fun t => @walkEntries_keeps path rest t) as Hk.
    destruct (walkDir fn1 _ d1 s1) as [e1 s1'].
    destruct (walkDir fn2 _ d1 s2) as [e2 s2'].
    destruct H1 as [[He Hr]|[Hf Ha]]; simpl in *.
    + subst e2. destruct e1 as [e|]; [|apply IH, Hr].
      destruct (error_eqb e SkipDir); left; split; simpl; auto.
    + destruct e2 as [e|]; [|contradiction].
      destruct Hf as [Hf1 Hf2]. rewrite Hf1.
      right. split; [split; assumption|]. simpl.
      destruct e1 as [e'|]; [|apply Hk, Ha].
      destruct (error_eqb e' SkipDir); exact Ha.
Qed.

Lemma walkDir_abort n :
  forall path s1 s2, R s1 s2 ->
    sameOrAborted R A (walkDir fn1 path n s1) (walkDir fn2 path n s2).
Proof.
  induction n as [name|name readErr entries IH] using node_ind;
    intros path s1 s2 Hs.
  - rewrite !walkDir_File.
    pose proof (@RA_call path (Some (mkDirEntry name false)) None s1 s2 Hs)
      as H.
    destruct (fn1 path _ None s1) as [e1 s1'].
    destruct (fn2 path _ None s2) as [e2 s2'].
    destruct H as [[He Hr]|[Hf Ha]]; [discriminate| |]; simpl in *.
    + subst e2. left. destruct e1; split; simpl; auto.
    + destruct e2 as [e|]; [|contradiction].
      right. split; [exact Hf|]. destruct e1; exact Ha.
  - rewrite !walkDir_Dir. cbv zeta.
    pose proof (@RA_call path (Some (mkDirEntry name true)) None s1 s2 Hs)
      as H.
    pose proof (fun t u => @A_call path (Some (mkDirEntry name true)) t u)
      as Hc.
    pose proof (fun t => @walkEntries_keeps path entries t) as Hk.
    destruct (fn1 path _ None s1) as [e1 s1'].
    destruct (fn2 path _ None s2) as [e2 s2'].
    destruct H as [[He Hr]|[Hf Ha]]; [discriminate| |]; simpl in *.
    + subst e2. destruct e1 as [e|]; [left; split; simpl; auto|].
      destruct readErr as [re|].
      * pose proof (@RA_call path (Some (mkDirEntry name true)) (Some re)
                             s1' s2' Hr) as H2.
        destruct (fn1 path _ (Some re) s1') as [e1 t1].
        destruct (fn2 path _ (Some re) s2') as [e2 t2].
        destruct H2 as [[He2 Hr2]|[Hf2 Ha2]]; [discriminate| |]; simpl in *.
        -- subst e2. destruct e1 as [e|]; [left; split; simpl; auto|].
           apply walkEntries_abort; assumption.
        -- destruct e2 as [e|]; [|contradiction].
           rewrite (fatal_not_skipped true Hf2).
           right. split; [exact Hf2|]. simpl.
           destruct e1 as [e'|]; [exact Ha2|apply Hk, Ha2].
      * apply walkEntries_abort; assumption.
    + destruct e2 as [e|]; [|contradiction].
      rewrite (fatal_not_skipped true Hf).
      right. split; [exact Hf|]. simpl.
      destruct e1 as [e'|]; [exact Ha|].
      destruct readErr as [re|].
      * specialize (Hc (Some re) s1' s2' Ha).
        destruct (fn1 path _ (Some re) s1') as [[e'|] t1]; simpl in *;
          [exact Hc|apply Hk, Hc].
      * apply Hk, Ha.
Qed.

Lemma WalkDir_abort fs root s1 s2 :
  R s1 s2 ->
  sameOrAborted R A (WalkDir fn1 fs root s1) (WalkDir fn2 fs root s2).
Proof.
  intro Hs. unfold WalkDir.
  assert (H : sameOrAborted R A
                (match fs root with
                 | LstatErr e => fn1 root None (Some e) s1
                 | LstatOk n => walkDir fn1 root n s1
                 end)
                (match fs root with
                 | LstatErr e => fn2 root None (Some e) s2
                 | LstatOk n => walkDir fn2 root n s2
                 end)).
  { destruct (fs root) as [e|n].
    - apply RA_call; [exact Hs|]. intros _. discriminate.
    - apply walkDir_abort, Hs. }
  destruct (match fs root with
            | LstatErr e => fn1 root None (Some e) s1
            | LstatOk n => walkDir fn1 root n s1
            end) as [e1 s1'].
  destruct (match fs root with
            | LstatErr e => fn2 root None (Some e) s2
            | LstatOk n => walkDir fn2 root n s2
            end) as [e2 s2'].
  destruct H as [[He Hr]|[Hf Ha]]; simpl in *.
  - subst e2. left. destruct e1 as [e|]; [|split; simpl; auto].
    destruct (error_eqb e SkipDir || error_eqb e SkipAll); split; simpl; auto.
  - destruct e2 as [e|]; [|contradiction].
    destruct Hf as [Hf1 Hf2]. rewrite Hf1, Hf2. simpl.
    right. split; [split; assumption|]. simpl.
    destruct e1 as [e'|]; [|exact Ha].
    destruct (error_eqb e' SkipDir || error_eqb e' SkipAll); exact Ha.
Qed.
End WalkAbort.

(** ** Cancellation only truncates *)

Lemma scanVisit_extends root maxDepth ig path d err dirs :
  exists rest,
    snd (scanVisit root maxDepth ig path d err dirs) = (dirs ++ rest)%list.
Proof.
  unfold scanVisit.
  destruct err; [exists []; rewrite app_nil_r; reflexivity|].
  destruct d as [d|]; [|exists []; rewrite app_nil_r; reflexivity].
  destruct (negb (IsDir d)); [exists []; rewrite app_nil_r; reflexivity|].
  destruct (String.eqb path root);
    [exists []; rewrite app_nil_r; reflexivity|].
  destruct (negb (isWithinDepth path root maxDepth));
    [exists []; rewrite app_nil_r; reflexivity|].
  destruct (ig && shouldIgnore (Name d));
    [exists []; rewrite app_nil_r; reflexivity|].
  exists [path]. reflexivity.
Qed.

Lemma fatal_Canceled : fatal (Some Canceled).
Proof. split; reflexivity. Qed.

Section Cancelled.
Variable ctx : Context.
Variable config : ScanConfig.

Local Abbreviation syncVisit :=
  (scanVisit (Root config) (MaxDepth config) (UseIgnorePatterns config)).

Lemma extendsEmitted_call path d err dirs st :
  extendsEmitted dirs st ->
  extendsEmitted (snd (syncVisit path d err dirs)) st.
Proof.
  intros [rest ->].
  destruct (scanVisit_extends (Root config) (MaxDepth config)
              (UseIgnorePatterns config) path d err
              ((allDirectories (ch st) ++ batch st) ++ rest))
    as [more ->].
  exists (rest ++ more)%list. rewrite app_assoc. reflexivity.
Qed.

Lemma visit_sameOrAborted path d err dirs st :
  sameDirectories dirs st -> (d = None -> err <> None) ->
  sameOrAborted sameDirectories extendsEmitted
                (syncVisit path d err dirs)
                (contextVisit ctx (emitVisit ctx config) path d err st).
Proof.
  intros Hs Hd.
  assert (Hstop : forall st',
             allDirectories (ch st') = allDirectories (ch st) ->
             batch st' = batch st ->
             sameOrAborted sameDirectories extendsEmitted
                           (syncVisit path d err dirs) (Some Canceled, st')).
  { intros st' Hc Hb. right. split; [exact fatal_Canceled|]. simpl.
    destruct (scanVisit_extends (Root config) (MaxDepth config)
                (UseIgnorePatterns config) path d err dirs) as [more ->].
    exists more. rewrite Hc, Hb, Hs. reflexivity. }
  unfold contextVisit, pollDone, tick. simpl.
  destruct (ctxDone ctx (clock st)); [apply Hstop; reflexivity|].
  unfold emitVisit, pollDone, tick. simpl.
  destruct (ctxDone ctx (Datatypes.S (clock st)));
    [apply Hstop; reflexivity|].
  clear Hstop. unfold scanVisit.
  destruct err as [re|]; [left; split; [reflexivity|exact Hs]|].
  destruct d as [d|]; [|exfalso; now apply Hd].
  destruct (negb (IsDir d)); [left; split; [reflexivity|exact Hs]|].
  destruct (String.eqb path (Root config));
    [left; split; [reflexivity|exact Hs]|].
  destruct (negb (isWithinDepth path (Root config) (MaxDepth config)));
    [left; split; [reflexivity|exact Hs]|].
  destruct (UseIgnorePatterns config && shouldIgnore (Name d));
    [left; split; [reflexivity|exact Hs]|].
  unfold appendAndFlush, trySend, tick, sameDirectories in *. simpl.
  destruct (currentBatchSize st <=? len (batch st ++ [path]))%Z; simpl.
  - destruct (ctxDone ctx (Datatypes.S (Datatypes.S (clock st)))
              && negb (sendWins ctx (Datatypes.S (Datatypes.S (clock st)))));
      simpl.
    + right. split; [exact fatal_Canceled|]. simpl.
      exists []. simpl. rewrite Hs, app_nil_r, app_assoc. reflexivity.
    + left. split; [reflexivity|]. simpl.
      rewrite allDirectories_snoc, app_nil_r. simpl.
      rewrite Hs, app_assoc. reflexivity.
  - left. split; [reflexivity|]. simpl. rewrite Hs, app_assoc. reflexivity.
Qed.

(** X5: whatever the cancellation behaviour, the directories an emitter
    delivers, taken in order, are an initial part of the sequence the
    synchronous walker returns for the same request. *)
Theorem emitted_directories_prefix_of_sync fs :
  (0 <= InitialBatchSize config)%Z ->
  exists stream rest,
    scanWithConfigCtx ctx fs config = Some stream
    /\ fst (scanDirectories fs (Root config) (MaxDepth config)
                            (UseIgnorePatterns config))
       = (allDirectories stream ++ rest)%list.
Proof.
  intro Hb. unfold scanWithConfigCtx, emitter, scanDirectories.
  destruct (InitialBatchSize config <? 0)%Z eqn:E;
    [apply Z.ltb_lt in E; lia|].
  unfold walkDirContext.
  pose proof (@WalkDir_abort _ _ sameDirectories extendsEmitted
                syncVisit (contextVisit ctx (emitVisit ctx config))
                visit_sameOrAborted extendsEmitted_call fs (Root config) []
                (mkEmitState [] (InitialBatchSize config) 0 0 [])
                eq_refl) as H.
  destruct (WalkDir syncVisit fs (Root config) []) as [e dirs].
  destruct (WalkDir (contextVisit _ _) fs (Root config) _) as [e' st].
  assert (Hx : extendsEmitted dirs st).
  { destruct H as [[_ Hr]|[_ Ha]]; simpl in *; [|exact Ha].
    exists []. rewrite app_nil_r. exact Hr. }
  clear H. destruct Hx as [rest Hx]. simpl.
  unfold finish, pollDone, trySend, tick. simpl.
  destruct (ctxDone ctx (Datatypes.S (clock st))
            && negb (sendWins ctx (Datatypes.S (clock st)))).
  - exists (ch st), (batch st ++ rest)%list.
    split; [destruct ((0 <? len (batch st))%Z || _); reflexivity|].
    rewrite Hx, app_assoc. reflexivity.
  - destruct (0 <? len (batch st))%Z eqn:E0; simpl.
    + eexists. exists rest. split; [reflexivity|].
      rewrite allDirectories_snoc. exact Hx.
    + assert (Hnil : batch st = []).
      { apply Z.ltb_ge in E0. unfold len in E0.
        destruct (batch st); [reflexivity|simpl in E0; lia]. }
      rewrite Hnil, app_nil_r in Hx.
      destruct (if ctxDone ctx (clock st) then Some Canceled else e');
        simpl; eexists; exists rest; (split; [reflexivity|]);
        rewrite allDirectories_snoc; simpl; rewrite ?Hnil, app_nil_r;
        exact Hx.
Qed.
End Cancelled.

Lemma emitted_directories_prefix_of_sync_witness :
  (0 <= InitialBatchSize (asyncConfig "/tmp/t" 3 true 2))%Z
  /\ exists stream rest,
       scanWithConfigCtx (mkContext (Some 9) (fun _ => true)) fsAsyncTest
                         (asyncConfig "/tmp/t" 3 true 2) = Some stream
       /\ fst (scanDirectories fsAsyncTest "/tmp/t" 3 true)
          = (allDirectories stream ++ rest)%list.
Proof.
  assert (H : (0 <= InitialBatchSize (asyncConfig "/tmp/t" 3 true 2))%Z)
    by (simpl; lia).
  split; [exact H|].
  exact (@emitted_directories_prefix_of_sync
           (mkContext (Some 9) (fun _ => true))
           (asyncConfig "/tmp/t" 3 true 2) fsAsyncTest H).
Defined.

(** ** Ignored directories are pruned *)

Lemma shouldIgnoreIn_In patterns name :
  shouldIgnoreIn patterns name = true <-> In name patterns.
Proof.
  induction patterns as [|p rest IH]; simpl.
  - split; [discriminate|contradiction].
  - destruct (String.eqb name p) eqn:E.
    + apply String.eqb_eq in E. subst p. split; auto.
    + apply String.eqb_neq in E. rewrite IH. split; [auto|].
      intros [H|H]; [subst p; contradiction|exact H].
Qed.

(** X6: [shouldIgnore] is true exactly for the names of [ignorePatterns],
    compared as whole strings. *)
Theorem shouldIgnore_membership name :
  shouldIgnore name = true <-> In name ignorePatterns.
Proof. apply shouldIgnoreIn_In. Qed.

Lemma entryOf_prune n : entryOf (pruneNode n) = entryOf n.
Proof. destruct n; reflexivity. Qed.

Lemma ignoredDir_prune n : ignoredDir (pruneNode n) = ignoredDir n.
Proof. destruct n; reflexivity. Qed.

Section Prune.
Variable root : string.
Variable maxDepth : Z.

Local Abbreviation ignoring := (scanVisit root maxDepth true).
Local Abbreviation keeping := (scanVisit root maxDepth false).

Lemma visit_ignoring_keeping path n dirs :
  String.eqb path root = true \/ ignoredDir n = false ->
  ignoring path (Some (entryOf n)) None dirs
  = keeping path (Some (entryOf n)) None dirs.
Proof.
  intro H. unfold scanVisit. destruct n as [name|name readErr entries];
    simpl; [reflexivity|].
  destruct (String.eqb path root); [reflexivity|].
  destruct H as [H|H]; [discriminate H|]. simpl in H. rewrite H.
  reflexivity.
Qed.

Lemma walkDir_ignored path n dirs :
  ignoredDir n = true -> String.eqb path root = false ->
  walkDir ignoring path n dirs = (None, dirs).
Proof.
  intros Hi Hp. destruct n as [name|name readErr entries];
    [discriminate Hi|]. simpl in Hi.
  rewrite walkDir_Dir. cbv zeta. unfold scanVisit at 1. simpl.
  rewrite Hp, Hi.
  destruct (negb (isWithinDepth path root maxDepth)); reflexivity.
Qed.

Lemma walkEntries_prune path entries :
  Forall (fun n => forall path dirs,
            String.eqb path root = true \/ ignoredDir n = false ->
            aliasFree root path n = true ->
            walkDir ignoring path n dirs
            = walkDir keeping path (pruneNode n) dirs) entries ->
  forallb
    (fun x =>
       negb (String.eqb (Filepath.Join path (Name (entryOf x))) root)
       && aliasFree root (Filepath.Join path (Name (entryOf x))) x)
    entries = true ->
  forall dirs,
    walkEntries ignoring path entries dirs
    = walkEntries keeping path
        (filter (fun x => negb (ignoredDir x)) (map pruneNode entries)) dirs.
Proof.
  induction 1 as [|x rest Hx _ IH]; intros Ha dirs; [reflexivity|].
  simpl in Ha. apply andb_true_iff in Ha. destruct Ha as [Ha Hrest].
  apply andb_true_iff in Ha. destruct Ha as [Hne Hax].
  apply negb_true_iff in Hne.
  simpl. rewrite ignoredDir_prune.
  destruct (ignoredDir x) eqn:Ei; simpl.
  - rewrite (walkDir_ignored _ _ dirs Ei Hne). apply IH, Hrest.
  - rewrite entryOf_prune, <- (Hx _ dirs (or_intror eq_refl) Hax).
    destruct (walkDir ignoring _ x dirs) as [[e|] dirs'];
      [reflexivity|]. apply IH, Hrest.
Qed.

Lemma walkDir_prune n :
  forall path dirs,
    String.eqb path root = true \/ ignoredDir n = false ->
    aliasFree root path n = true ->
    walkDir ignoring path n dirs = walkDir keeping path (pruneNode n) dirs.
Proof.
  induction n as [name|name readErr entries IH] using node_ind;
    intros path dirs Hn Ha.
  - reflexivity.
  - change (pruneNode (Dir name readErr entries))
      with (Dir name readErr
                (filter (fun x => negb (ignoredDir x))
                        (map pruneNode entries))).
    rewrite !walkDir_Dir. cbv zeta.
    pose proof (visit_ignoring_keeping path (Dir name readErr entries) dirs
                  Hn) as Hv.
    simpl entryOf in Hv. rewrite Hv. clear Hv.
    destruct (keeping path (Some (mkDirEntry name true)) None dirs)
      as [[e|] s1]; [reflexivity|].
    assert (E : match readErr with
                | None => (None, s1)
                | Some re =>
                    ignoring path (Some (mkDirEntry name true)) (Some re) s1
                end
                = match readErr with
                  | None => (None, s1)
                  | Some re =>
                      keeping path (Some (mkDirEntry name true)) (Some re) s1
                  end) by (destruct readErr; reflexivity).
    rewrite E. clear E.
    destruct (match readErr with
              | None => (None, s1)
              | Some re =>
                  keeping path (Some (mkDirEntry name true)) (Some re) s1
              end) as [[e|] s2]; [reflexivity|].
    apply walkEntries_prune; [exact IH|exact Ha].
Qed.
End Prune.

(** X7: with ignore patterns on, [scanDirectories] returns what it returns
    with ignore patterns off on the tree from which every directory with
    an ignored name has been removed together with all that lies below it;
    the root itself is kept whatever its name.  The file system names no
    entry whose path is the root path. *)
Theorem ignored_directories_are_pruned fs root maxDepth :
  fsAliasFree fs root = true ->
  scanDirectories fs root maxDepth true
  = scanDirectories (prune fs) root maxDepth false.
Proof.
  unfold fsAliasFree, scanDirectories, WalkDir, prune. intro H.
  destruct (fs root) as [e|n]; [reflexivity|].
  rewrite (@walkDir_prune root maxDepth n root []
             (or_introl (String.eqb_refl root)) H).
  reflexivity.
Qed.

Lemma ignored_directories_are_pruned_witness :
  fsAliasFree fsMixed "/t" = true
  /\ scanDirectories fsMixed "/t" 5 true
     = scanDirectories (prune fsMixed) "/t" 5 false.
Proof.
  assert (H : fsAliasFree fsMixed "/t" = true) by (vm_compute; reflexivity).
  split; [exact H|].
  exact (@ignored_directories_are_pruned fsMixed "/t" 5 H).
Defined.

(** ** What an emitter emits *)

Lemma emitter_Some ctx fs config fn :
  (0 <= InitialBatchSize config)%Z ->
  exists st, emitter ctx fs config fn = Some st.
Proof.
  intro H. unfold emitter.
  destruct (InitialBatchSize config <? 0)%Z eqn:E;
    [apply Z.ltb_lt in E; lia|].
  destruct (walkDirContext ctx fs (Root config) fn _) as [err st].
  eexists. reflexivity.
Qed.

(** X8: every path an emitter delivers, in any batch and under any
    cancellation, differs from the scan root, passed the depth test, and
    is neither the excluded path nor below it. *)
Theorem emitted_paths_pass_the_guards ctx fs config excludePath stream p :
  scanWithConfigCtxExcluding ctx fs config excludePath = Some stream ->
  In p (allDirectories stream) ->
  p <> Root config
  /\ isWithinDepth p (Root config) (MaxDepth config) = true
  /\ excluded excludePath p = false.
Proof.
  intros Hs Hin.
  cut (p <> Root config
       /\ isWithinDepth p (Root config) (MaxDepth config) = true).
  { intros [H1 H2]. split; [exact H1|]. split; [exact H2|].
    eapply excluding_emits_no_excluded; eassumption. }
  revert Hs Hin. unfold scanWithConfigCtxExcluding, emitter.
  destruct (InitialBatchSize config <? 0)%Z; [discriminate|].
  pose (G := fun q : string =>
               q <> Root config
               /\ isWithinDepth q (Root config) (MaxDepth config) = true).
  pose (Q := fun (_ : option error) (st : emitState) =>
               Forall G (allDirectories (ch st) ++ batch st)).
  assert (H : Q (fst (walkDirContext ctx fs (Root config)
                        (emitVisitExcluding ctx config excludePath)
                        (mkEmitState [] (InitialBatchSize config) 0 0 [])))
                (snd (walkDirContext ctx fs (Root config)
                        (emitVisitExcluding ctx config excludePath)
                        (mkEmitState [] (InitialBatchSize config) 0 0 [])))).
  { unfold walkDirContext. apply WalkDir_post; unfold Q; auto;
      try (simpl; constructor; fail).
    intros path d err st Hst _.
    unfold contextVisit, pollDone, tick. simpl.
    destruct (ctxDone ctx (clock st)); [exact Hst|].
    unfold emitVisitExcluding, pollDone, tick. simpl.
    destruct (ctxDone ctx (Datatypes.S (clock st))); [exact Hst|].
    destruct err as [re|]; [exact Hst|].
    destruct d as [d|]; [|exact Hst].
    destruct (negb (IsDir d)); [exact Hst|].
    destruct (String.eqb path (Root config)) eqn:E1; [exact Hst|].
    destruct (excluded excludePath path); [exact Hst|].
    destruct (isWithinDepth path (Root config) (MaxDepth config)) eqn:E2;
      [|exact Hst]. simpl.
    destruct (UseIgnorePatterns config && shouldIgnore (Name d));
      [exact Hst|].
    assert (Hst' : Forall G (allDirectories (ch st) ++ batch st ++ [path])).
    { rewrite app_assoc. apply Forall_app. split; [exact Hst|].
      constructor; [|constructor]. split; [|exact E2].
      apply String.eqb_neq, E1. }
    unfold appendAndFlush, trySend, tick. simpl.
    destruct (currentBatchSize st <=? len (batch st ++ [path]))%Z; simpl;
      [|exact Hst'].
    destruct (ctxDone ctx _ && negb (sendWins ctx _)); simpl; [exact Hst'|].
    rewrite allDirectories_snoc, app_nil_r. exact Hst'. }
  destruct (walkDirContext ctx fs (Root config) _ _) as [err st].
  unfold Q in H. simpl in H. intro E. inversion E as [E']. clear E E'.
  intro Hin. rewrite Forall_forall in H. apply H.
  unfold finish, pollDone, trySend, tick in Hin. simpl in Hin.
  apply in_or_app.
  destruct ((0 <? len (batch st))%Z || _) eqn:Eb;
    destruct (ctxDone ctx _ && negb (sendWins ctx _)); simpl in Hin;
    try (left; exact Hin);
    rewrite allDirectories_snoc in Hin; simpl in Hin;
    apply in_app_or in Hin; destruct Hin as [Hin|Hin]; auto; contradiction.
Qed.

Lemma emitted_paths_pass_the_guards_witness :
  scanWithConfigCtxExcluding Background fsAsyncTest
    (asyncConfig "/tmp/t" 3 true 10) "/tmp/t/dir1"
  = Some [mkDirBatch ["/tmp/t/dir2"; "/tmp/t/dir2/subdir1"] true None]
  /\ In "/tmp/t/dir2" ["/tmp/t/dir2"; "/tmp/t/dir2/subdir1"]
  /\ "/tmp/t/dir2" <> Root (asyncConfig "/tmp/t" 3 true 10)
  /\ isWithinDepth "/tmp/t/dir2" (Root (asyncConfig "/tmp/t" 3 true 10))
                   (MaxDepth (asyncConfig "/tmp/t" 3 true 10)) = true
  /\ excluded "/tmp/t/dir1" "/tmp/t/dir2" = false.
Proof.
  assert (H1 : scanWithConfigCtxExcluding Background fsAsyncTest
                 (asyncConfig "/tmp/t" 3 true 10) "/tmp/t/dir1"
               = Some [mkDirBatch ["/tmp/t/dir2"; "/tmp/t/dir2/subdir1"]
                                  true None])
    by (vm_compute; reflexivity).
  assert (H2 : In "/tmp/t/dir2"
                  (allDirectories
                     [mkDirBatch ["/tmp/t/dir2"; "/tmp/t/dir2/subdir1"]
                                 true None]))
    by (left; reflexivity).
  split; [exact H1|]. split; [left; reflexivity|].
  exact (@emitted_paths_pass_the_guards Background fsAsyncTest
           (asyncConfig "/tmp/t" 3 true 10) "/tmp/t/dir1" _ "/tmp/t/dir2"
           H1 H2).
Defined.

(** X9: on a context that is cancelled before the scan starts, an emitter
    delivers no directory: its stream is empty, or is the one terminal batch
    with the cancellation error and no directories. *)
Theorem cancelled_before_start_emits_nothing ctx fs config excludePath stream :
  cancelAt ctx = Some 0 ->
  scanWithConfigCtx ctx fs config = Some stream
  \/ scanWithConfigCtxExcluding ctx fs config excludePath = Some stream ->
  stream = [] \/ stream = [mkDirBatch [] true (Some Canceled)].
Proof.
  intros Hc H.
  assert (Hdone : forall t, ctxDone ctx t = true)
    by (intro t; unfold ctxDone; rewrite Hc; reflexivity).
  assert (H' : exists excl,
             scanWithConfigCtxExcluding ctx fs config excl = Some stream).
  { destruct H as [H|H]; [exists ""|exists excludePath]; exact H. }
  clear H. destruct H' as [excl H]. revert H.
  unfold scanWithConfigCtxExcluding, emitter.
  destruct (InitialBatchSize config <? 0)%Z; [discriminate|].
  pose (Q := fun (_ : option error) (st : emitState) =>
               ch st = [] /\ batch st = []).
  assert (HQ : Q (fst (walkDirContext ctx fs (Root config)
                         (emitVisitExcluding ctx config excl)
                         (mkEmitState [] (InitialBatchSize config) 0 0 [])))
                 (snd (walkDirContext ctx fs (Root config)
                         (emitVisitExcluding ctx config excl)
                         (mkEmitState [] (InitialBatchSize config) 0 0 [])))).
  { unfold walkDirContext. apply WalkDir_post; unfold Q; auto.
    intros path d err st Hst _.
    unfold contextVisit, pollDone. rewrite Hdone. exact Hst. }
  destruct (walkDirContext ctx fs (Root config) _ _) as [err st].
  destruct HQ as [Hch Hb]. simpl in Hch, Hb.
  intro E. inversion E as [E']. clear E E'.
  unfold finish, pollDone, trySend, tick. simpl.
  rewrite !Hdone, Hb, Hch. simpl.
  destruct (sendWins ctx (Datatypes.S (clock st))); simpl; auto.
Qed.

Lemma cancelled_before_start_emits_nothing_witness :
  cancelAt cancelledSending = Some 0
  /\ (scanWithConfigCtx cancelledSending fsAsyncTest
        (asyncConfig "/tmp/t" 3 true 2)
      = Some [mkDirBatch [] true (Some Canceled)]
      \/ scanWithConfigCtxExcluding cancelledSending fsAsyncTest
           (asyncConfig "/tmp/t" 3 true 2) ""
         = Some [mkDirBatch [] true (Some Canceled)])
  /\ ([mkDirBatch [] true (Some Canceled)] = []
      \/ [mkDirBatch [] true (Some Canceled)]
         = [mkDirBatch [] true (Some Canceled)]).
Proof.
  assert (H : scanWithConfigCtx cancelledSending fsAsyncTest
                (asyncConfig "/tmp/t" 3 true 2)
              = Some [mkDirBatch [] true (Some Canceled)])
    by (vm_compute; reflexivity).
  split; [reflexivity|]. split; [left; exact H|].
  exact (@cancelled_before_start_emits_nothing cancelledSending fsAsyncTest
           (asyncConfig "/tmp/t" 3 true 2) "" _ eq_refl (or_introl H)).
Defined.

(** ** The orchestrator without cancellation *)

Lemma allDirectories_map_phase1Batch l :
  allDirectories (map phase1Batch l) = allDirectories l.
Proof.
  unfold allDirectories. rewrite map_map. reflexivity.
Qed.

Lemma allDirectories_app l1 l2 :
  allDirectories (l1 ++ l2) = (allDirectories l1 ++ allDirectories l2)%list.
Proof. unfold allDirectories. rewrite map_app, concat_app. reflexivity. Qed.

Lemma relayPlain_all ctx ins :
  cancelAt ctx = None -> forall t, relayPlain ctx t ins = ins.
Proof.
  intro Hn. induction ins as [|b rest IH]; intro t; simpl; [reflexivity|].
  unfold delivered. rewrite (ctxDone_never ctx t Hn). simpl.
  rewrite IH. reflexivity.
Qed.

Lemma relayPhase1_all ctx ins :
  cancelAt ctx = None ->
  Forall (fun b => Err b = None) ins ->
  forall t,
    relayPhase1 ctx t ins
    = (map phase1Batch ins, Some (t + List.length ins)).
Proof.
  intros Hn. induction 1 as [|b rest Hb _ IH]; intro t; simpl.
  - rewrite Nat.add_0_r. reflexivity.
  - unfold delivered. rewrite (ctxDone_never ctx t Hn). simpl.
    rewrite Hb, IH. f_equal. f_equal. lia.
Qed.

(** The stream of an emitter on a context that is never cancelled. *)
Lemma emitter_uncancelled ctx fs config excludePath :
  cancelAt ctx = None -> (0 <= InitialBatchSize config)%Z ->
  exists flushed dirs,
    scanWithConfigCtxExcluding ctx fs config excludePath
    = Some (flushed ++ [mkDirBatch dirs true None])%list
    /\ Forall notTerminal flushed.
Proof.
  intros Hn Hb.
  destruct (@emitter_Some ctx fs config
              (emitVisitExcluding ctx config excludePath) Hb) as [st Hst].
  assert (Hs : scanWithConfigCtxExcluding ctx fs config excludePath
               = Some (ch st))
    by (unfold scanWithConfigCtxExcluding; rewrite Hst; reflexivity).
  destruct (emitter_shape _ _ _ _ Hs) as [flushed [Hf Hsh]].
  destruct Hsh as [[_ Hc]|[dirs [t E]]]; [contradiction|].
  exists flushed, dirs. rewrite Hs, E, (ctxDone_never ctx t Hn).
  split; [reflexivity|exact Hf].
Qed.

Lemma doneCount_phase1 l : doneCount (map phase1Batch l) = 0.
Proof.
  unfold doneCount. induction l as [|b l IH]; simpl; [reflexivity|exact IH].
Qed.

(** X11: when the working directory is known and the context is never
    cancelled, the outward stream of the orchestrator is the whole
    phase-1 stream with every done flag cleared, followed by the whole
    phase-2 stream unchanged; it carries the directories the synchronous
    walker returns for the working directory, then those of phase 2, and
    ends with its only done batch, which carries no error. *)
Theorem two_phase_without_cancellation sch fs cwd startPath maxDepth ig
        batchSize :
  cancelAt (emit1 sch) = None -> cancelAt (emit2 sch) = None ->
  cancelAt (relay sch) = None -> (0 <= batchSize)%Z ->
  exists phase1 phase2 pre dirs,
    scanDirectoriesAsyncCtx (emit1 sch) fs cwd maxDepth ig batchSize
    = Some phase1
    /\ scanDirectoriesAsyncCtxExcluding (emit2 sch) fs "/" maxDepth ig
                                        batchSize cwd = Some phase2
    /\ scanTwoPhasesAsyncCtx sch fs (Some cwd) startPath maxDepth ig batchSize
       = Some (map phase1Batch phase1 ++ phase2)%list
    /\ allDirectories (map phase1Batch phase1 ++ phase2)
       = (fst (scanDirectories fs cwd maxDepth ig)
          ++ allDirectories phase2)%list
    /\ (map phase1Batch phase1 ++ phase2)%list
       = (pre ++ [mkDirBatch dirs true None])%list
    /\ Forall (fun b => Done b = false) pre
    /\ doneCount (map phase1Batch phase1 ++ phase2) = 1.
Proof.
  intros H1 H2 Hr Hb.
  destruct (@emitter_all_directories (emit1 sch)
              (asyncConfig cwd maxDepth ig batchSize) H1 fs Hb)
    as [phase1 [Hp1 Hd1]].
  destruct (@emitter_uncancelled (emit1 sch) fs
              (asyncConfig cwd maxDepth ig batchSize) "" H1 Hb)
    as [fl1 [d1 [Hs1 Hf1]]].
  rewrite <- scanWithConfigCtx_excluding, Hp1 in Hs1.
  inversion Hs1 as [Hs1']. clear Hs1.
  destruct (@emitter_uncancelled (emit2 sch) fs
              (asyncConfig "/" maxDepth ig batchSize) cwd H2 Hb)
    as [fl2 [d2 [Hs2 Hf2]]].
  assert (Herr : Forall (fun b => Err b = None) phase1).
  { rewrite Hs1'. apply Forall_app. split.
    - eapply Forall_impl; [|exact Hf1]. intros b [_ Hb']. exact Hb'.
    - constructor; [reflexivity|constructor]. }
  exists phase1, (fl2 ++ [mkDirBatch d2 true None])%list,
         (map phase1Batch phase1 ++ fl2)%list, d2.
  split; [exact Hp1|]. split; [exact Hs2|]. split.
  { unfold scanTwoPhasesAsyncCtx, scanDirectoriesAsyncCtx,
      scanDirectoriesAsyncCtxExcluding in *.
    rewrite Hp1, (@relayPhase1_all (relay sch) phase1 Hr Herr), Hs2,
      (@relayPlain_all (relay sch) _ Hr).
    reflexivity. }
  split.
  { rewrite allDirectories_app, allDirectories_map_phase1Batch.
    simpl in Hd1. rewrite Hd1. reflexivity. }
  split; [rewrite app_assoc; reflexivity|]. split.
  { apply Forall_app. split.
    - apply Forall_forall. intros b Hin. apply in_map_iff in Hin.
      destruct Hin as [x [<- _]]. reflexivity.
    - apply notTerminal_notDone, Hf2. }
  rewrite doneCount_app, doneCount_phase1, doneCount_app,
    (doneCount_flushed Hf2). reflexivity.
Qed.

Lemma two_phase_without_cancellation_witness :
  cancelAt Background = None
  /\ (0 <= 10)%Z
  /\ exists phase1 phase2 pre dirs,
       scanDirectoriesAsyncCtx Background fsSlash "/" 5 true 10 = Some phase1
       /\ scanDirectoriesAsyncCtxExcluding Background fsSlash "/" 5 true 10
                                           "/" = Some phase2
       /\ scanTwoPhasesAsyncCtx (mkSchedule Background Background Background)
            fsSlash (Some "/") "/" 5 true 10
          = Some (map phase1Batch phase1 ++ phase2)%list
       /\ allDirectories (map phase1Batch phase1 ++ phase2)
          = (fst (scanDirectories fsSlash "/" 5 true)
             ++ allDirectories phase2)%list
       /\ (map phase1Batch phase1 ++ phase2)%list
          = (pre ++ [mkDirBatch dirs true None])%list
       /\ Forall (fun b => Done b = false) pre
       /\ doneCount (map phase1Batch phase1 ++ phase2) = 1.
Proof.
  assert (Hb : (0 <= 10)%Z) by lia.
  split; [reflexivity|]. split; [exact Hb|].
  exact (@two_phase_without_cancellation
           (mkSchedule Background Background Background) fsSlash "/" "/" 5
           true 10 eq_refl eq_refl eq_refl Hb).
Defined.

(** X12: when the working directory cannot be determined, the outward
    stream is an initial part of the single-phase stream over the start
    path, with every batch unchanged, and the whole of it when the
    orchestrator never takes the case of [ctx.Done()]. *)
Theorem fallback_relays_single_phase sch fs startPath maxDepth ig batchSize
        out :
  scanTwoPhasesAsyncCtx sch fs None startPath maxDepth ig batchSize
  = Some out ->
  exists single k,
    scanDirectoriesAsyncCtx (emit1 sch) fs startPath maxDepth ig batchSize
    = Some single
    /\ out = firstn k single
    /\ (cancelAt (relay sch) = None -> out = single).
Proof.
  unfold scanTwoPhasesAsyncCtx.
  destruct (scanDirectoriesAsyncCtx (emit1 sch) fs startPath maxDepth ig
                                    batchSize) as [single|];
    [|discriminate].
  intro H. inversion H as [H']. clear H H'.
  destruct (relayPlain_prefix (relay sch) single 0) as [k Hk].
  exists single, k. split; [reflexivity|]. split; [exact Hk|].
  intro Hn. apply relayPlain_all, Hn.
Qed.

Lemma fallback_relays_single_phase_witness :
  scanTwoPhasesAsyncCtx (mkSchedule Background Background Background)
    fsOneDir None "/r" 5 true 10
  = Some [mkDirBatch ["/r/a"] true None]
  /\ exists single k,
       scanDirectoriesAsyncCtx Background fsOneDir "/r" 5 true 10
       = Some single
       /\ [mkDirBatch ["/r/a"] true None] = firstn k single
       /\ (cancelAt Background = None
           -> [mkDirBatch ["/r/a"] true None] = single).
Proof.
  assert (H : scanTwoPhasesAsyncCtx
                (mkSchedule Background Background Background)
                fsOneDir None "/r" 5 true 10
              = Some [mkDirBatch ["/r/a"] true None])
    by (vm_compute; reflexivity).
  split; [exact H|].
  exact (@fallback_relays_single_phase
           (mkSchedule Background Background Background) fsOneDir "/r" 5
           true 10 _ H).
Defined.

(** ** From the scanner to the interface *)

Lemma emitter_cancelOnly ctx fs config excludePath stream :
  scanWithConfigCtxExcluding ctx fs config excludePath = Some stream ->
  Forall cancelOnly stream.
Proof.
  intro H. apply Forall_forall. intros b Hin.
  eapply emitter_errors; eassumption.
Qed.

Section Pipeline.
Variable Find : string -> list string -> list Match.

(** X13: whatever stream the relay goroutine of the interface reads and
    whenever its context is cancelled, it receives a prefix of the stream,
    the whole of it when the context is never cancelled; what it leaves on
    the error channel is the first error among the received batches that is
    not [context.Canceled], be it an error of the file system or
    [context.DeadlineExceeded], and nothing when there is none.  So the
    cancellation error is never reported, every reported error is that of
    a received batch, and a stream whose batches carry no error but the
    cancellation error leaves the error channel empty. *)
Theorem relay_reports_first_scanning_error ctx t stream st :
  exists k,
    directories (fst (relayBatches Find ctx t stream (st, None)))
    = (directories st ++ allDirectories (firstn k stream))%list
    /\ snd (relayBatches Find ctx t stream (st, None))
       = firstScanError (firstn k stream)
    /\ (cancelAt ctx = None -> k = List.length stream)
    /\ snd (relayBatches Find ctx t stream (st, None)) <> Some Canceled
    /\ (forall e,
          snd (relayBatches Find ctx t stream (st, None)) = Some e ->
          exists b, In b (firstn k stream) /\ Err b = Some e)
    /\ (Forall cancelOnly stream ->
        snd (relayBatches Find ctx t stream (st, None)) = None).
Proof.
  destruct (relayBatches_received Find ctx stream t (st, None))
    as [k [Hd [He Hn]]].
  simpl in Hd, He. exists k.
  split; [exact Hd|]. split; [exact He|]. split; [exact Hn|].
  rewrite He. split; [apply firstScanError_not_canceled|].
  split; [intros e H; apply firstScanError_In, H|].
  intro H. apply firstScanError_cancelOnly, Forall_prefix, H.
Qed.

Lemma relayBatches_consistent ctx stream :
  forall t st,
    matches (fst st)
    = fuzzyMatch Find (query (fst st)) (directories (fst st)) ->
    matches (fst (relayBatches Find ctx t stream st))
    = fuzzyMatch Find
        (query (fst (relayBatches Find ctx t stream st)))
        (directories (fst (relayBatches Find ctx t stream st))).
Proof.
  induction stream as [|b rest IH]; intros t st H; simpl; [exact H|].
  destruct (delivered ctx t); [|exact H].
  apply IH. simpl. apply (step_consistent Find (Receive b)), H.
Qed.

(** X14: when the relay goroutine has received the whole stream of
    [scanDirectoriesAsync], the state holds exactly the directories the
    synchronous walker returns, in the same order, the scan is marked
    complete, the matches are those of the empty query over these
    directories, and no error was reported. *)
Theorem relayed_state_equals_sync fs root maxDepth ig batchSize :
  (0 <= batchSize)%Z ->
  exists stream,
    scanDirectoriesAsync fs root maxDepth ig batchSize = Some stream
    /\ directories
         (fst (relayBatches Find Background 0 stream (initialState, None)))
       = fst (scanDirectories fs root maxDepth ig)
    /\ scanComplete
         (fst (relayBatches Find Background 0 stream (initialState, None)))
       = true
    /\ matches
         (fst (relayBatches Find Background 0 stream (initialState, None)))
       = fuzzyMatch Find "" (fst (scanDirectories fs root maxDepth ig))
    /\ snd (relayBatches Find Background 0 stream (initialState, None))
       = None.
Proof.
  intro Hb.
  destruct (@emitter_all_directories Background
              (asyncConfig root maxDepth ig batchSize) eq_refl fs Hb)
    as [stream [Hs Hd]].
  simpl in Hd.
  exists stream. split; [exact Hs|].
  destruct (relayBatches_prefix Find Background stream 0 (initialState, None))
    as [k [Hdir [Hq [_ [_ Hk]]]]].
  rewrite (Hk eq_refl), firstn_all in Hdir. simpl in Hdir, Hq.
  assert (Hdirs : directories
                    (fst (relayBatches Find Background 0 stream
                            (initialState, None)))
                  = fst (scanDirectories fs root maxDepth ig))
    by (rewrite Hdir, Hd; reflexivity).
  split; [exact Hdirs|]. split; [|split].
  - unfold scanDirectoriesAsync, scanDirectoriesAsyncCtx in Hs.
    rewrite scanWithConfigCtx_excluding in Hs.
    destruct (@emitter_uncancelled Background fs
                (asyncConfig root maxDepth ig batchSize) "" eq_refl Hb)
      as [fl [d [Hu _]]].
    rewrite Hs in Hu. inversion Hu as [Hu']. clear Hu.
    rewrite (@relayBatches_all Find Background _ eq_refl),
      fold_applyBatch_snoc.
    simpl. apply applyBatch_frame.
  - pose proof (@relayBatches_consistent Background stream 0
                  (initialState, None) eq_refl) as Hm.
    rewrite Hm, Hq, Hdirs. reflexivity.
  - apply relayBatches_errorChan.
    unfold scanDirectoriesAsync, scanDirectoriesAsyncCtx in Hs.
    rewrite scanWithConfigCtx_excluding in Hs.
    eapply emitter_cancelOnly, Hs.
Qed.
End Pipeline.

Lemma relay_reports_first_scanning_error_witness :
  snd (relayBatches noMatch Background 0
         [ mkDirBatch ["/a"] false None;
           mkDirBatch [] false (Some Canceled);
           mkDirBatch ["/b"] true (Some DeadlineExceeded);
           mkDirBatch [] true (Some ErrPermission) ]
         (initialState, None))
  = Some DeadlineExceeded
  /\ exists k,
       directories
         (fst (relayBatches noMatch Background 0
                 [ mkDirBatch ["/a"] false None;
                   mkDirBatch [] false (Some Canceled);
                   mkDirBatch ["/b"] true (Some DeadlineExceeded);
                   mkDirBatch [] true (Some ErrPermission) ]
                 (initialState, None)))
       = (directories initialState
          ++ allDirectories
               (firstn k [ mkDirBatch ["/a"] false None;
                           mkDirBatch [] false (Some Canceled);
                           mkDirBatch ["/b"] true (Some DeadlineExceeded);
                           mkDirBatch [] true (Some ErrPermission) ]))%list
       /\ snd (relayBatches noMatch Background 0
                 [ mkDirBatch ["/a"] false None;
                   mkDirBatch [] false (Some Canceled);
                   mkDirBatch ["/b"] true (Some DeadlineExceeded);
                   mkDirBatch [] true (Some ErrPermission) ]
                 (initialState, None))
          = firstScanError
              (firstn k [ mkDirBatch ["/a"] false None;
                          mkDirBatch [] false (Some Canceled);
                          mkDirBatch ["/b"] true (Some DeadlineExceeded);
                          mkDirBatch [] true (Some ErrPermission) ])
       /\ (cancelAt Background = None -> k = 4).
Proof.
  split; [vm_compute; reflexivity|].
  destruct (@relay_reports_first_scanning_error noMatch Background 0
              [ mkDirBatch ["/a"] false None;
                mkDirBatch [] false (Some Canceled);
                mkDirBatch ["/b"] true (Some DeadlineExceeded);
                mkDirBatch [] true (Some ErrPermission) ]
              initialState)
    as [k [Hd [He [Hn _]]]].
  exists k. split; [exact Hd|]. split; [exact He|exact Hn].
Defined.

Lemma relayed_state_equals_sync_witness :
  (0 <= 2)%Z
  /\ exists stream,
       scanDirectoriesAsync fsAsyncTest "/tmp/t" 3 true 2 = Some stream
       /\ directories
            (fst (relayBatches noMatch Background 0 stream
                    (initialState, None)))
          = fst (scanDirectories fsAsyncTest "/tmp/t" 3 true)
       /\ scanComplete
            (fst (relayBatches noMatch Background 0 stream
                    (initialState, None)))
          = true
       /\ matches
            (fst (relayBatches noMatch Background 0 stream
                    (initialState, None)))
          = fuzzyMatch noMatch "" (fst (scanDirectories fsAsyncTest "/tmp/t"
                                                         3 true))
       /\ snd (relayBatches noMatch Background 0 stream (initialState, None))
          = None.
Proof.
  assert (H : (0 <= 2)%Z) by lia.
  split; [exact H|].
  exact (@relayed_state_equals_sync noMatch fsAsyncTest "/tmp/t" 3 true 2 H).
Defined.

(** ** Only directories count *)

Lemma filter_step (A : Type) (f : A -> bool) (a : A) (l : list A) :
  filter f (a :: l) = if f a then a :: filter f l else filter f l.
Proof. reflexivity. Qed.

Lemma entryOf_dropFiles n : entryOf (dropFiles n) = entryOf n.
Proof. destruct n; reflexivity. Qed.

Section DropFiles.
Variable S : Type.
Variable fn : WalkDirFunc S.
Hypothesis fn_file :
  forall path name s,
    fn path (Some (mkDirEntry name false)) None s = (None, s).

Lemma walkDir_dropFiles n :
  forall path s, walkDir fn path (dropFiles n) s = walkDir fn path n s.
Proof.
  induction n as [name|name readErr entries IH] using node_ind;
    intros path s; [reflexivity|].
  change (dropFiles (Dir name readErr entries))
    with (Dir name readErr
              (filter (fun x => IsDir (entryOf x)) (map dropFiles entries))).
  rewrite !walkDir_Dir. cbv zeta.
  destruct (fn path _ None s) as [[e|] s1]; [reflexivity|].
  destruct (match readErr with
            | None => (None, s1)
            | Some re => fn path (Some (mkDirEntry name true)) (Some re) s1
            end) as [[e|] s2]; [reflexivity|].
  generalize s2.
  induction IH as [|x rest Hx _ IHrest]; intro s3; [reflexivity|].
  rewrite map_cons, filter_step, entryOf_dropFiles.
  destruct (IsDir (entryOf x)) eqn:Ex.
  - simpl walkEntries. rewrite entryOf_dropFiles, Hx.
    destruct (walkDir fn _ x s3) as [[e|] s']; [reflexivity|]. apply IHrest.
  - simpl walkEntries. destruct x as [fname|dname dre des];
      [|discriminate Ex].
    rewrite walkDir_File, fn_file. apply IHrest.
Qed.
End DropFiles.

(** X15: entries that are not directories have no effect on a scan:
    [scanDirectories] returns the same sequence on the tree from which they
    have all been removed. *)
Theorem files_do_not_matter fs root maxDepth ig :
  scanDirectories (directoriesOnly fs) root maxDepth ig
  = scanDirectories fs root maxDepth ig.
Proof.
  unfold scanDirectories, WalkDir, directoriesOnly.
  destruct (fs root) as [e|n]; [reflexivity|].
  rewrite walkDir_dropFiles; [reflexivity|].
  intros. reflexivity.
Qed.

(** ** Confirming a selection *)

Section Confirm.
Variable Find : string -> list string -> list Match.

End Confirm.

